(** * Caption derivation of the Discogs editor bot (src/bot.py)

    A shallow embedding of the pure part of [bot.py]: [extract_id],
    [extract_roles], [hashtags], [choose_track] and [build_caption], together
    with the fragment of Python's [str] and [re] these functions use.

    Texts are sequences of characters.  A Python [str] is read as the list of
    its characters, a character outside the ASCII repertoire as the bytes of
    its UTF-8 form; the character operations ([lower], [isspace], [isdigit],
    the classes of [re]) are given on the ASCII repertoire, where they agree
    with Python, and what is stated of the case, the blanks or the digits of
    a text is stated of ASCII texts.  The decorative label prefixes of the
    caption are constants and are kept as the UTF-8 bytes of the source
    file. *)

From Stdlib Require Import String Ascii DecimalString.
From Stdlib Require Import ZArith NArith Lia Bool Arith List.
Import ListNotations.

Set Implicit Arguments.

(* ================================================================== *)
(** ** Python [str] *)

Module Text.

Definition text := list ascii.

(** A literal of the source. *)
Definition str (s : string) : text := list_ascii_of_string s.

Definition NL : ascii := ascii_of_N 10.

Definition between (lo hi : N) (c : ascii) : bool :=
  (lo <=? N_of_ascii c)%N && (N_of_ascii c <=? hi)%N.

(** The classes of the ASCII repertoire.  Python has more letters, digits and
    blanks outside it: what is stated with these classes is stated of ASCII
    texts ([Plain.ascii_text]). *)
Definition is_upper (c : ascii) : bool := between 65 90 c.
Definition is_lower (c : ascii) : bool := between 97 122 c.
Definition is_digit (c : ascii) : bool := between 48 57 c.
Definition is_alnum (c : ascii) : bool := is_upper c || is_lower c || is_digit c.

(** [str.isspace] on one ASCII character: TAB..CR, FS..US and the blank. *)
Definition is_space (c : ascii) : bool :=
  between 9 13 c || between 28 31 c || (N_of_ascii c =? 32)%N.

Definition lower_char (c : ascii) : ascii :=
  if is_upper c then ascii_of_N (N_of_ascii c + 32) else c.

(** [s.lower()] on an ASCII text: the letters A..Z are lowered, every other
    character is left as it is. *)
Definition lower (s : text) : text := map lower_char s.

Fixpoint text_eqb (a b : text) : bool :=
  match a, b with
  | [], [] => true
  | x :: a', y :: b' => Ascii.eqb x y && text_eqb a' b'
  | _, _ => false
  end.

(** [s.startswith(p)] *)
Fixpoint startswith (p s : text) : bool :=
  match p, s with
  | [], _ => true
  | x :: p', y :: s' => Ascii.eqb x y && startswith p' s'
  | _ :: _, [] => false
  end.

(** [p in s] *)
Fixpoint contains (p s : text) : bool :=
  startswith p s ||
  match s with
  | [] => false
  | _ :: s' => contains p s'
  end.

Fixpoint lstrip (s : text) : text :=
  match s with
  | [] => []
  | c :: s' => if is_space c then lstrip s' else s
  end.

Definition rstrip (s : text) : text := rev (lstrip (rev s)).

(** [s.strip()] on an ASCII text: the blanks of [is_space] are trimmed. *)
Definition strip (s : text) : text := rstrip (lstrip s).

(** [s.split(c, 1)] for a separator of one character: the text before the
    first [c] and the text after it, or [s] alone when [c] does not occur. *)
Fixpoint split_once (c : ascii) (s : text) : list text :=
  match s with
  | [] => [[]]
  | x :: s' =>
      if Ascii.eqb x c then [[]; s']
      else match split_once c s' with
           | a :: rest => (x :: a) :: rest
           | [] => [[x]]
           end
  end.

(** [sep.join(l)] *)
Fixpoint join (sep : text) (l : list text) : text :=
  match l with
  | [] => []
  | x :: l' =>
      match l' with
      | [] => x
      | _ :: _ => x ++ sep ++ join sep l'
      end
  end.

(** [s.isdigit()] on an ASCII text: at least one character, all of them
    digits. *)
Definition isdigit (s : text) : bool :=
  match s with
  | [] => false
  | _ :: _ => forallb is_digit s
  end.

Definition digit_value (c : ascii) : Z := Z.of_N (N_of_ascii c) - 48.

(** [int(s)] on a run of ASCII digits. *)
Definition int (s : text) : Z :=
  fold_left (fun acc c => 10 * acc + digit_value c)%Z s 0%Z.

(** [str(n)] on an integer. *)
Definition str_of_int (n : Z) : text := str (NilZero.string_of_int (Z.to_int n)).

(** Truthiness of a [str]. *)
Definition truthy (s : text) : bool :=
  match s with [] => false | _ :: _ => true end.

End Text.

Import Text.

(* ================================================================== *)
(** ** Python [re]: the constructs the patterns of bot.py are written with *)

Module Re.

Inductive regex : Type :=
| Lit (w : text)                  (* a literal word *)
| Cat (r1 r2 : regex)             (* r1 r2 *)
| Opt (r : regex)                 (* (?:r)?  greedy *)
| StarLazy (p : ascii -> bool)    (* c*?  on a class c *)
| Star (p : ascii -> bool)        (* c*   on a class c *)
| Plus (p : ascii -> bool)        (* c+   on a class c *)
| Group (r : regex).              (* (r), the capturing group 1 *)

(** The classes [.], [\s] and [\d], the last two on ASCII characters. *)
Definition dot (c : ascii) : bool := negb (Ascii.eqb c NL).
Definition space : ascii -> bool := is_space.
Definition digit : ascii -> bool := is_digit.

(** A match object: what [m.group(1)] gives. *)
Record match_obj : Type := MatchObj { group1 : option text }.

Section Matcher.

(** The flag [re.I]: on ASCII characters, a letter matches in either case. *)
Variable ignorecase : bool.

Definition chr_eq (a b : ascii) : bool :=
  if ignorecase then Ascii.eqb (lower_char a) (lower_char b)
  else Ascii.eqb a b.

(** The literal [w] at the head of [s]: what is left of [s] after it. *)
Fixpoint lit (w s : text) : option text :=
  match w with
  | [] => Some s
  | a :: w' =>
      match s with
      | [] => None
      | b :: s' => if chr_eq a b then lit w' s' else None
      end
  end.

Variable A : Type.

(** [c*?]: the continuation is tried before one more character is taken. *)
Fixpoint lazy (p : ascii -> bool) (s : text) (k : text -> option A) : option A :=
  match k s with
  | Some m => Some m
  | None =>
      match s with
      | [] => None
      | c :: s' => if p c then lazy p s' k else None
      end
  end.

(** [c*]: as many characters as possible, giving them back one by one. *)
Fixpoint greedy (p : ascii -> bool) (s : text) (k : text -> option A) : option A :=
  match s with
  | [] => k s
  | c :: s' =>
      if p c then
        match greedy p s' k with
        | Some m => Some m
        | None => k s
        end
      else k s
  end.

(** The backtracking matcher: [exec r s g k] matches [r] at the head of
    [s], [g] being group 1 so far, and hands what is left to [k]; the
    alternatives are tried in the order of [re]. *)
Fixpoint exec (r : regex) (s : text) (g : option text)
    (k : text -> option text -> option A) : option A :=
  match r with
  | Lit w =>
      match lit w s with
      | Some s' => k s' g
      | None => None
      end
  | Cat r1 r2 => exec r1 s g (fun s1 g1 => exec r2 s1 g1 k)
  | Opt r1 =>
      match exec r1 s g k with
      | Some m => Some m
      | None => k s g
      end
  | StarLazy p => lazy p s (fun s' => k s' g)
  | Star p => greedy p s (fun s' => k s' g)
  | Plus p =>
      match s with
      | [] => None
      | c :: s' => if p c then greedy p s' (fun s'' => k s'' g) else None
      end
  | Group r1 =>
      exec r1 s g
        (fun s1 _ => k s1 (Some (firstn (length s - length s1) s)))
  end.

End Matcher.

(** [re.match(r, s, flags)] *)
Definition re_match (ignorecase : bool) (r : regex) (s : text) : option match_obj :=
  exec ignorecase r s None (fun _ g => Some (MatchObj g)).

(** [r.search(s)]: the first start at which [r] matches. *)
Fixpoint search (ignorecase : bool) (r : regex) (s : text) : option match_obj :=
  match re_match ignorecase r s with
  | Some m => Some m
  | None =>
      match s with
      | [] => None
      | _ :: s' => search ignorecase r s'
      end
  end.

(** [re.sub(r"[c]+", repl, s)] on a class [c]: every maximal run of
    characters of the class is replaced by [repl]; [inrun] tells that the
    run being read has been replaced already. *)
Fixpoint sub_runs (p : ascii -> bool) (repl : text) (inrun : bool) (s : text) : text :=
  match s with
  | [] => []
  | c :: s' =>
      if p c then (if inrun then [] else repl) ++ sub_runs p repl true s'
      else c :: sub_runs p repl false s'
  end.

Definition sub_class_plus (p : ascii -> bool) (repl s : text) : text :=
  sub_runs p repl false s.

End Re.

Import Re.

(* ================================================================== *)
(** ** bot.py *)

Module Artist.
Record t : Type := Make { name : option text }.
End Artist.

Module Track.
Record t : Type := Make { title : option text; type_ : option text }.
End Track.

Module Credit.
Record t : Type := Make { role : option text; name : option text }.
End Credit.

(** The value under ["year"]: a number, or a string. *)
Inductive year_value : Type :=
| YearInt (n : Z)
| YearStr (s : text).

Module Release.
(** The release record; [None] is a key that is not there. *)
Record t : Type := Make {
  artists_sort : option text;
  artists : option (list Artist.t);
  title : option text;
  year : option year_value;
  tracklist : option (list Track.t);
  extraartists : option (list Credit.t);
  genres : option (list text);
  styles : option (list text)
}.
End Release.

Module Bot.

(** [RE_RELEASE = re.compile(r"discogs\.com/(?:.*?/)?release/(\d+)", re.I)] *)
Definition RE_RELEASE : regex :=
  Cat (Lit (str "discogs.com/"))
    (Cat (Opt (Cat (StarLazy dot) (Lit (str "/"))))
       (Cat (Lit (str "release/")) (Group (Plus digit)))).

(** [RE_MASTER = re.compile(r"discogs\.com/(?:.*?/)?master/(\d+)", re.I)] *)
Definition RE_MASTER : regex :=
  Cat (Lit (str "discogs.com/"))
    (Cat (Opt (Cat (StarLazy dot) (Lit (str "/"))))
       (Cat (Lit (str "master/")) (Group (Plus digit)))).

(** [r"track\s*:\s*(\d+)"] *)
Definition RE_TRACK : regex :=
  Cat (Lit (str "track"))
    (Cat (Star space)
       (Cat (Lit (str ":")) (Cat (Star space) (Group (Plus digit))))).

(** [d.get(k) or ""] and [d.get(k, "")] on a string field. *)
Definition or_text (o : option text) (d : text) : text :=
  match o with
  | Some s => if truthy s then s else d
  | None => d
  end.

Definition get_default (o : option text) (d : text) : text :=
  match o with
  | Some s => s
  | None => d
  end.

(** [d.get(k) or []] and [d.get(k, [])] on a list field. *)
Definition or_list (X : Type) (o : option (list X)) : list X :=
  match o with
  | Some l => l
  | None => []
  end.

(** [k in d], [d] being the keys of a dict in insertion order. *)
Definition has_key (k : text) (d : list text) : bool :=
  existsb (text_eqb k) d.

(** [list(dict.fromkeys(l))] *)
Fixpoint fromkeys_from (d : list text) (l : list text) : list text :=
  match l with
  | [] => d
  | x :: l' => fromkeys_from (if has_key x d then d else d ++ [x]) l'
  end.

Definition fromkeys (l : list text) : list text := fromkeys_from [] l.

(** [any(k in role for k in keywords)] *)
Definition any_in (keywords : list text) (role : text) : bool :=
  existsb (fun k => contains k role) keywords.

(** The loop of [extract_roles], [out] being the list it appends to. *)
Fixpoint roles_loop (keywords : list text) (out : list text) (extra : list Credit.t) : list text :=
  match extra with
  | [] => out
  | p :: rest =>
      let role := lower (or_text (Credit.role p) []) in
      let name := or_text (Credit.name p) [] in
      roles_loop keywords (if any_in keywords role then out ++ [name] else out) rest
  end.

Definition extract_roles (extra : option (list Credit.t)) (keywords : list text) : list text :=
  match extra with
  | None => []
  | Some [] => []
  | Some l => fromkeys (roles_loop keywords [] l)
  end.

Definition not_alnum (c : ascii) : bool := negb (is_alnum c).

Definition hashtags (data : Release.t) : text :=
  let g := or_list (Release.genres data) in
  let s := or_list (Release.styles data) in
  join (str " ")
    (map (fun x => str "#" ++ sub_class_plus not_alnum [] x)
       (filter (fun x => truthy (strip x)) (g ++ s))).

(** The entries of the track listing that are tracks. *)
Definition track_entries (data : Release.t) : list Track.t :=
  filter (fun t => text_eqb (get_default (Track.type_ t) (str "track")) (str "track"))
    (or_list (Release.tracklist data)).

(** The hint segment: [user_text.split("|", 1)[1].strip()] *)
Definition hint_of (user_text : text) : text :=
  strip (nth 1 (split_once "|" user_text) []).

(** The loop over the titles, [h] being the lowercased hint. *)
Fixpoint by_name (h : text) (tracks : list Track.t) : option text :=
  match tracks with
  | [] => None
  | t :: rest =>
      if contains h (lower (get_default (Track.title t) []))
      then Track.title t
      else by_name h rest
  end.

(** The block of the index hint: [Some r] when it returns [r]. *)
Definition by_index (hint : text) (tracks : list Track.t) : option (option text) :=
  match re_match true RE_TRACK hint with
  | Some m =>
      let idx := (int (get_default (group1 m) []) - 1)%Z in
      if (0 <=? idx)%Z && (idx <? Z.of_nat (length tracks))%Z
      then match nth_error tracks (Z.to_nat idx) with
           | Some t => Some (Track.title t)
           | None => None
           end
      else None
  | None => None
  end.

Definition choose_track (data : Release.t) (user_text : text) : option text :=
  if negb (contains (str "|") user_text) then None
  else
    let hint := hint_of user_text in
    let tracks := track_entries data in
    match by_index hint tracks with
    | Some r => r
    | None => by_name (lower hint) tracks
    end.

(** [data.get("year") or ""]: a zero and an empty string give way to [""]. *)
Definition year_or_empty (y : option year_value) : year_value :=
  match y with
  | Some (YearInt n) => if (n =? 0)%Z then YearStr [] else YearInt n
  | Some (YearStr s) => if truthy s then YearStr s else YearStr []
  | None => YearStr []
  end.

(** [str(v)] *)
Definition py_str (v : year_value) : text :=
  match v with
  | YearInt n => str_of_int n
  | YearStr s => s
  end.

Definition ARTIST : text := str "🎧 Artist : ".
Definition TRACK : text := str "🎵 Track Title : ".
Definition ALBUM : text := str "💿 Album : ".
Definition PRODUCER : text := str "🎚 Producer : ".
Definition ENGINEER : text := str "🎛 Sound Engineer : ".
Definition DATE : text := str "📅 Date : ".

(** The line the block [if year:] appends, if any. *)
Definition date_lines (year : text) : list text :=
  if truthy year then
    let decade :=
      if isdigit year && (length year =? 4)
      then str " #" ++ [nth 2 year " "%char] ++ str "0s"
      else [] in
    [DATE ++ year ++ decade]
  else [].

(** The list [lines] before the tags are looked at. *)
Definition head_lines (data : Release.t) (user_text : text) : list text :=
  let artist :=
    match Release.artists_sort data with
    | Some s =>
        if truthy s then s
        else join (str ", ")
               (map (fun a => get_default (Artist.name a) []) (or_list (Release.artists data)))
    | None =>
        join (str ", ")
          (map (fun a => get_default (Artist.name a) []) (or_list (Release.artists data)))
    end in
  let album := or_text (Release.title data) [] in
  let year := strip (py_str (year_or_empty (Release.year data))) in
  let track := choose_track data user_text in
  let producers := extract_roles (Release.extraartists data) [str "producer"] in
  let engineers :=
    extract_roles (Release.extraartists data)
      [str "engineer"; str "mix"; str "record"; str "master"; str "sound"] in
  let lines := [] in
  let lines := lines ++ [ARTIST ++ artist] in
  let lines :=
    match track with
    | Some t => if truthy t then lines ++ [TRACK ++ t] else lines
    | None => lines
    end in
  let lines := lines ++ [ALBUM ++ album] in
  let lines :=
    match producers with
    | [] => lines
    | _ :: _ => lines ++ [PRODUCER ++ join (str ", ") producers]
    end in
  let lines :=
    match engineers with
    | [] => lines
    | _ :: _ => lines ++ [ENGINEER ++ join (str ", ") engineers]
    end in
  lines ++ date_lines year.

(** The list [lines] that is joined. *)
Definition caption_lines (data : Release.t) (user_text : text) : list text :=
  let lines := head_lines data user_text in
  let tags := hashtags data in
  if truthy tags then lines ++ [tags] else lines.

Definition build_caption (data : Release.t) (user_text : text) : text :=
  join [NL] (caption_lines data user_text).

(** [extract_id]: the kind and the id, [None] for an absent one. *)
Definition extract_id (t : text) : option text * option text :=
  match search true RE_RELEASE t with
  | Some m => (Some (str "release"), group1 m)
  | None =>
      match search true RE_MASTER t with
      | Some m => (Some (str "master"), group1 m)
      | None => (None, None)
      end
  end.

End Bot.

Import Bot.

(* ================================================================== *)
(** ** The vocabulary of the specification *)

Module Spec.

(** [p] occurs in [s]. *)
Definition substring (p s : text) : Prop := exists a b, s = a ++ p ++ b.

(** The entries of [l] that do not occur earlier in [l], [before] being
    what comes before [l]. *)
Fixpoint first_occurrences (before l : list text) : list text :=
  match l with
  | [] => []
  | x :: l' =>
      if in_dec (list_eq_dec ascii_dec) x before
      then first_occurrences (before ++ [x]) l'
      else x :: first_occurrences (before ++ [x]) l'
  end.

(** The role of an entry, lowercased, has one of the keywords in it. *)
Definition role_matches (keywords : list text) (e : Credit.t) : bool :=
  existsb (fun k => contains k (lower (or_text (Credit.role e) []))) keywords.

(** The name of an entry, empty when it has none. *)
Definition credit_name (e : Credit.t) : text := or_text (Credit.name e) [].

(** An entry of the genres or styles that is blank once trimmed. *)
Definition blank (x : text) : bool :=
  match strip x with [] => true | _ :: _ => false end.

(** The tag of an entry: [#] and its letters and digits. *)
Definition tag_of (x : text) : text := str "#" ++ filter is_alnum x.

Definition tags_of (genres styles : list text) : text :=
  join (str " ") (map tag_of (filter (fun x => negb (blank x)) (genres ++ styles))).

(** The caption has a date line. *)
Definition date_emitted (data : Release.t) (user_text : text) : Prop :=
  exists l, In l (caption_lines data user_text) /\ startswith DATE l = true.

(** The decade tag of a year of exactly four digits, from its third digit;
    nothing for any other year. *)
Definition decade_tag (y : text) : text :=
  match y with
  | [d1; d2; d3; d4] =>
      if is_digit d1 && is_digit d2 && is_digit d3 && is_digit d4
      then str " #" ++ [d3] ++ str "0s"
      else []
  | _ => []
  end.

(** The title of a track, lowercased, has the lowercased hint in it. *)
Definition title_has (h : text) (t : Track.t) : bool :=
  contains h (lower (get_default (Track.title t) [])).

(** The title of the first track that [title_has] the hint. *)
Definition first_title_with (h : text) (tracks : list Track.t) : option text :=
  match find (title_has h) tracks with
  | Some t => Track.title t
  | None => None
  end.

(** An entry of the track listing that counts as a track. *)
Definition is_track (t : Track.t) : Prop :=
  get_default (Track.type_ t) (str "track") = str "track".

(** The index an index hint asks for, counted from 1. *)
Definition index_of (m : match_obj) : Z := int (get_default (group1 m) []).

Definition out_of_range (n : Z) (tracks : list Track.t) : Prop :=
  (n < 1 \/ Z.of_nat (length tracks) < n)%Z.

(** The hint is no index hint, or its index is out of range. *)
Definition no_index_hint_applies (hint : text) (tracks : list Track.t) : Prop :=
  match re_match true RE_TRACK hint with
  | None => True
  | Some m => out_of_range (index_of m) tracks
  end.

(** [s] is empty or begins with a character that is not of the class. *)
Definition stops (p : ascii -> bool) (s : text) : bool :=
  match s with
  | [] => true
  | c :: _ => negb (p c)
  end.

(** A release URL in its parts: what stands before the host name, the host
    name, the path between the host and the word [release], that word, the
    id, and what follows the id. *)
Record release_url : Type := ReleaseUrl {
  url_before : text;
  url_host : text;
  url_path : text;
  url_word : text;
  url_id : text;
  url_after : text
}.

Definition url_text (u : release_url) : text :=
  url_before u ++ url_host u ++ "/"%char
    :: url_path u ++ url_word u ++ "/"%char :: url_id u ++ url_after u.

(** A path is a run of segments, each closed by [/], on one line. *)
Definition path_ok (path : text) : bool :=
  forallb dot path &&
  match rev path with
  | [] => true
  | c :: _ => Ascii.eqb c "/"
  end.


End Spec.

Import Spec.

(* ================================================================== *)
(** ** More vocabulary: patterns, master URLs, decades *)

Module Shape.

(** The classes of a pattern do not tell a letter from its lowercase. *)
Fixpoint lower_stable (r : regex) : Prop :=
  match r with
  | Lit _ => True
  | Cat r1 r2 => lower_stable r1 /\ lower_stable r2
  | Opt r1 => lower_stable r1
  | Group r1 => lower_stable r1
  | StarLazy p => forall c, p (lower_char c) = p c
  | Star p => forall c, p (lower_char c) = p c
  | Plus p => forall c, p (lower_char c) = p c
  end.

(** A match object with its group lowercased. *)
Definition lower_match (m : match_obj) : match_obj :=
  MatchObj (option_map lower (group1 m)).

(** A master URL, in the parts of [release_url], is well formed: as a
    release URL with the word [master], and [release/] nowhere in it. *)
Definition well_formed_master (u : release_url) : bool :=
  negb (contains (str "discogs.com/") (lower (url_before u)))
  && text_eqb (lower (url_host u)) (str "discogs.com")
  && path_ok (url_path u)
  && negb (contains (str "/master/") (lower (url_path u)))
  && text_eqb (lower (url_word u)) (str "master")
  && isdigit (url_id u)
  && stops digit (url_after u)
  && negb (contains (str "/master/") (lower (url_after u)))
  && negb (contains (str "release/") (lower (url_text u))).

(** The character of a digit. *)
Definition digit_char (n : Z) : ascii := ascii_of_N (Z.to_N (48 + n)).

(** The artist of the caption: the sort name, or the names of the artists. *)
Definition artist_of (data : Release.t) : text :=
  let names :=
    join (str ", ")
      (map (fun a => get_default (Artist.name a) []) (or_list (Release.artists data))) in
  match Release.artists_sort data with
  | Some s => if truthy s then s else names
  | None => names
  end.

(** The optional lines of the caption, each as the list of no line or one. *)
Definition track_lines (data : Release.t) (user_text : text) : list text :=
  match choose_track data user_text with
  | Some t => if truthy t then [TRACK ++ t] else []
  | None => []
  end.

Definition credit_lines (label : text) (names : list text) : list text :=
  match names with
  | [] => []
  | _ :: _ => [label ++ join (str ", ") names]
  end.

Definition tags_lines (data : Release.t) : list text :=
  if truthy (hashtags data) then [hashtags data] else [].

(** The keywords of the two lines of credits. *)
Definition producer_keywords : list text := [str "producer"].

Definition engineer_keywords : list text :=
  [str "engineer"; str "mix"; str "record"; str "master"; str "sound"].

End Shape.

Import Shape.

(* ================================================================== *)
(** ** The handler and the fetches of bot.py

    [get_json], [get_release], [get_master] and [handle] talk to Discogs and
    to Telegram.  A program is the tree of its calls: each call to the
    outside comes with what the program does on either outcome of it, a
    value or an exception of class [Exception], kept as the text [str(e)].
    The JSON documents are objects, with the keys the code reads. *)

Module Handler.

Inductive outcome (X : Type) : Type :=
| Ok (x : X)
| Raised (e : text).

Arguments Ok {X} x.
Arguments Raised {X} e.

Record image : Type := Image { uri : option text }.

(** A JSON object of Discogs: the release record, the images, the two keys
    of a master, and whether it has any other key. *)
Record doc : Type := Doc {
  release : Release.t;
  images : option (list image);
  main_release : option Z;
  main_release_id : option Z;
  other_keys : bool
}.

Definition is_none (X : Type) (o : option X) : bool :=
  match o with
  | None => true
  | Some _ => false
  end.

(** [not data] on an object: it has no key. *)
Definition doc_empty (d : doc) : bool :=
  let r := release d in
  is_none (Release.artists_sort r) && is_none (Release.artists r)
  && is_none (Release.title r) && is_none (Release.year r)
  && is_none (Release.tracklist r) && is_none (Release.extraartists r)
  && is_none (Release.genres r) && is_none (Release.styles r)
  && is_none (images d) && is_none (main_release d) && is_none (main_release_id d)
  && negb (other_keys d).

Inductive prog (R : Type) : Type :=
| Ret (r : R)
| Raise (e : text)
| HttpJson (url : text) (k : outcome doc -> prog R)
| HttpContent (url : text) (k : outcome text -> prog R)
| ReplyText (t : text) (k : outcome unit -> prog R)
| ReplyPhoto (photo caption : text) (k : outcome unit -> prog R).

Arguments Ret {R} r.
Arguments Raise {R} e.
Arguments HttpJson {R} url k.
Arguments HttpContent {R} url k.
Arguments ReplyText {R} t k.
Arguments ReplyPhoto {R} photo caption k.

(** [get_json(url)]: the request, [raise_for_status] and [json], each of
    which may raise. *)
Definition get_json (R : Type) (url : text) (k : outcome doc -> prog R) : prog R :=
  HttpJson url k.

Definition get_release (R : Type) (release_id : text) (k : outcome doc -> prog R) : prog R :=
  get_json (str "https://api.discogs.com/releases/" ++ release_id) k.

(** [m.get("main_release") or m.get("main_release_id")], [None] when it is
    not truthy. *)
Definition main_release_of (m : doc) : option Z :=
  let truthy_id (o : option Z) :=
    match o with
    | Some n => if (n =? 0)%Z then None else Some n
    | None => None
    end in
  match truthy_id (main_release m) with
  | Some n => Some n
  | None => truthy_id (main_release_id m)
  end.

Definition get_master (R : Type) (master_id : text)
    (k : outcome (option doc) -> prog R) : prog R :=
  get_json (str "https://api.discogs.com/masters/" ++ master_id)
    (fun o =>
       match o with
       | Raised e => k (Raised e)
       | Ok m =>
           match main_release_of m with
           | None => k (Ok None)
           | Some rid =>
               get_release (str_of_int rid)
                 (fun o' =>
                    match o' with
                    | Raised e => k (Raised e)
                    | Ok d => k (Ok (Some d))
                    end)
           end
       end).

Definition HELP : text := str "Send a valid Discogs release/master URL.".
Definition NO_DATA : text := str "Couldn't get data from Discogs.".
Definition ERROR : text := str "Discogs error: ".

(** The end of [handle] after a last call: its exception is not caught. *)
Definition finish (o : outcome unit) : prog unit :=
  match o with
  | Ok _ => Ret tt
  | Raised e => Raise e
  end.

(** [img_list[0].get("uri") if img_list else None], when truthy. *)
Definition image_url (d : doc) : option text :=
  match images d with
  | Some (i :: _) =>
      match uri i with
      | Some u => if truthy u then Some u else None
      | None => None
      end
  | _ => None
  end.

(** [handle] from the caption on. *)
Definition deliver (d : doc) (msg : text) : prog unit :=
  let caption := build_caption (release d) msg in
  match image_url d with
  | Some img_url =>
      HttpContent img_url
        (fun o =>
           match o with
           | Ok img =>
               ReplyPhoto img caption
                 (fun o' =>
                    match o' with
                    | Ok _ => Ret tt
                    | Raised _ => ReplyText caption finish
                    end)
           | Raised _ => ReplyText caption finish
           end)
  | None => ReplyText caption finish
  end.

(** The [try] block of [handle], [data] being there or not. *)
Definition with_data (data : outcome (option doc)) (msg : text) : prog unit :=
  match data with
  | Raised e => ReplyText (ERROR ++ e) finish
  | Ok o =>
      let falsy := match o with None => true | Some d => doc_empty d end in
      if falsy then
        ReplyText NO_DATA
          (fun r =>
             match r with
             | Ok _ => Ret tt
             | Raised e => ReplyText (ERROR ++ e) finish
             end)
      else
        match o with
        | Some d => deliver d msg
        | None => Ret tt
        end
  end.

(** [handle], [message_text] being [update.effective_message.text]. *)
Definition handle (message_text : option text) : prog unit :=
  let msg := strip (or_text message_text []) in
  let (typ, did) := extract_id msg in
  match did with
  | None => ReplyText HELP finish
  | Some [] => ReplyText HELP finish
  | Some (c :: rest) =>
      let did := c :: rest in
      match typ with
      | Some kind =>
          if text_eqb kind (str "release")
          then get_release did
                 (fun o =>
                    match o with
                    | Ok d => with_data (Ok (Some d)) msg
                    | Raised e => with_data (Raised e) msg
                    end)
          else get_master did (fun o => with_data o msg)
      | None => get_master did (fun o => with_data o msg)
      end
  end.

(** What happens in a run: the calls and their outcomes. *)
Inductive event : Type :=
| EJson (url : text) (o : outcome doc)
| EContent (url : text) (o : outcome text)
| EText (t : text) (o : outcome unit)
| EPhoto (photo caption : text) (o : outcome unit).

(** [run p tr res]: the program [p] can make the calls of [tr], with these
    outcomes, and end with [res]. *)
Fixpoint run (R : Type) (p : prog R) (tr : list event) (res : outcome R) : Prop :=
  match p with
  | Ret r => tr = [] /\ res = Ok r
  | Raise e => tr = [] /\ res = Raised e
  | HttpJson url k =>
      match tr with
      | EJson url' o :: tr' => url' = url /\ run (k o) tr' res
      | _ => False
      end
  | HttpContent url k =>
      match tr with
      | EContent url' o :: tr' => url' = url /\ run (k o) tr' res
      | _ => False
      end
  | ReplyText t k =>
      match tr with
      | EText t' o :: tr' => t' = t /\ run (k o) tr' res
      | _ => False
      end
  | ReplyPhoto photo caption k =>
      match tr with
      | EPhoto photo' caption' o :: tr' =>
          photo' = photo /\ caption' = caption /\ run (k o) tr' res
      | _ => False
      end
  end.

(** The replies that went through. *)
Definition delivered (ev : event) : bool :=
  match ev with
  | EText _ (Ok _) => true
  | EPhoto _ _ (Ok _) => true
  | _ => false
  end.

Definition reply_failed (ev : event) : bool :=
  match ev with
  | EText _ (Raised _) => true
  | EPhoto _ _ (Raised _) => true
  | _ => false
  end.

Definition is_json (ev : event) : bool :=
  match ev with EJson _ _ => true | _ => false end.

Definition is_content (ev : event) : bool :=
  match ev with EContent _ _ => true | _ => false end.

(** The text a reply carries: the text, or the caption of the photo. *)
Definition reply_text_of (ev : event) : option text :=
  match ev with
  | EText t _ => Some t
  | EPhoto _ c _ => Some c
  | _ => None
  end.

End Handler.

Import Handler.

(* ================================================================== *)
(** ** The ASCII repertoire, and the words of the specification on it

    A character outside the ASCII repertoire is, in a text, the run of the
    bytes of its UTF-8 form, all above 127.  [Text] and [Re] know no blank,
    no digit and no cased letter among these bytes, while Python has some:
    [lower], [strip], [isdigit], [int], the classes [\s] and [\d] and the
    flag [re.I] are those of Python on the texts that are ASCII.  The
    statements that depend on the case, the blanks or the digits of a text
    are made for the ASCII texts.

    The words of the specification are given here on the records as they
    are, with nothing of [Bot] in them. *)

Module Plain.

Definition is_ascii (c : ascii) : bool := (N_of_ascii c <? 128)%N.

Definition ascii_text (s : text) : bool := forallb is_ascii s.

Definition ascii_texts (l : list text) : bool := forallb ascii_text l.

(** The list under a key, empty when the key is not there. *)
Definition listed (X : Type) (o : option (list X)) : list X :=
  match o with
  | Some l => l
  | None => []
  end.




(** The entries of the genres, then of the styles. *)
Definition entries_of (data : Release.t) : list text :=
  listed (Release.genres data) ++ listed (Release.styles data).

(** The title of an entry of the track listing, empty when missing. *)
Definition title_of (t : Track.t) : text :=
  match Track.title t with
  | Some s => s
  | None => []
  end.

(** The entry is a track: its type is "track", or it has no type. *)
Definition typed_track (t : Track.t) : bool :=
  match Track.type_ t with
  | Some ty => text_eqb ty (str "track")
  | None => true
  end.

Definition tracks_of (data : Release.t) : list Track.t :=
  filter typed_track (listed (Release.tracklist data)).

(** The lowercased title of the track has [h] in it. *)
Definition hint_in (h : text) (t : Track.t) : bool :=
  contains h (lower (title_of t)).

(** The title of the first track that has [h] in its lowercased title. *)
Definition first_with (h : text) (tracks : list Track.t) : option text :=
  match find (hint_in h) tracks with
  | Some t => Track.title t
  | None => None
  end.

(** The hint segment is an index hint of digits [ds]: the word [track] in any
    case, blanks, a colon, blanks, and the run of digits [ds], which stops. *)
Definition index_hint (hint ds : text) : Prop :=
  exists t w1 w2 rest,
    hint = t ++ w1 ++ ":"%char :: w2 ++ ds ++ rest
    /\ lower t = str "track"
    /\ forallb is_space w1 = true /\ forallb is_space w2 = true
    /\ isdigit ds = true /\ stops digit rest = true.


(** A Discogs URL of the word [word] ("release/" or "master/") occurs in the
    text: the host name in any case, an optional path on one line closed by
    a slash, the word in any case with its slash, and a digit at least. *)
Definition occurs (word t : text) : Prop :=
  exists a h mid wd ds rest,
    t = a ++ h ++ mid ++ wd ++ ds ++ rest
    /\ lower h = str "discogs.com/"
    /\ (mid = [] \/ exists q, mid = q ++ str "/" /\ forallb dot q = true)
    /\ lower wd = word
    /\ isdigit ds = true.

End Plain.

Import Plain.

(* ================================================================== *)
(** ** Records and messages the examples are about *)

Definition new_url : release_url :=
  ReleaseUrl (str "https://www.") (str "Discogs.com") [] (str "release")
    (str "249504") (str "-Rick-Astley-Never-Gonna-Give-You-Up").

Definition master_url : release_url :=
  ReleaseUrl (str "https://www.") (str "discogs.com") (str "fr/") (str "Master")
    (str "96559") (str "-Rick-Astley-Whenever-You-Need-Somebody").

Definition with_credits (l : list Credit.t) : Release.t :=
  Release.Make (Some (str "A")) None (Some (str "B")) None None (Some l) None None.

Definition credited (r n : string) : Credit.t := Credit.Make (Some (str r)) (Some (str n)).

Definition old_url : release_url :=
  ReleaseUrl (str "see http://") (str "discogs.com") (str "de/Artist-Title/")
    (str "RELEASE") (str "1234") (str "?ev=rb").

Definition no_release : Release.t :=
  Release.Make None None None None None None None None.

Definition master_doc (mr mrid : option Z) : doc :=
  Doc no_release None mr mrid true.

Definition release_doc (r : Release.t) (imgs : option (list image)) : doc :=
  Doc r imgs None None true.

Definition with_genres (g s : list text) : Release.t :=
  Release.Make None None None None None None (Some g) (Some s).



Definition bare_data : Release.t := with_genres [str "!!!"] [].

Definition with_year (y : year_value) : Release.t :=
  Release.Make (Some (str "A")) None (Some (str "B")) (Some y) None None None None.

Definition soul_data : Release.t :=
  Release.Make (Some (str "A")) None (Some (str "B")) (Some (YearInt 2001))
    None None (Some [str "Soul"]) None.

Definition with_tracks (l : list Track.t) : Release.t :=
  Release.Make None None None None (Some l) None None None.

Definition titled (s : string) : Track.t := Track.Make (Some (str s)) None.


(** A heading, then two tracks. *)
Definition headed_tracks : Release.t :=
  with_tracks
    [Track.Make (Some (str "Side A")) (Some (str "heading"));
     titled "Blue Moonlight"; titled "Moonlight Again"].


(** Genres with a letter outside ASCII, without a letter, and blank. *)
Definition forro_data : Release.t :=
  with_genres [str "Forró"; str "!!!"; str " "] [str "R&B"].


(* ================================================================== *)
(** ** Facts on texts *)

Example lower_ex : lower (str "Track:9 (Remix)") = str "track:9 (remix)".
Proof. reflexivity. Qed.

Example strip_ex : strip (str "  a b  ") = str "a b".
Proof. reflexivity. Qed.

Example split_ex : split_once "|" (str "u | x | y") = [str "u "; str " x | y"].
Proof. reflexivity. Qed.

Example str_of_int_ex :
  str_of_int 2001 = str "2001" /\ str_of_int 0 = str "0" /\ str_of_int (-5) = str "-5".
Proof. repeat split; reflexivity. Qed.

Example int_ex : int (str "0042") = 42%Z.
Proof. reflexivity. Qed.

Lemma text_eqb_eq (a b : text) : text_eqb a b = true <-> a = b.
Proof.
  revert b; induction a as [|x a IH]; intros [|y b]; simpl; split; intro H;
    try reflexivity; try discriminate.
  - apply andb_true_iff in H as [H1 H2]. apply Ascii.eqb_eq in H1.
    apply IH in H2. congruence.
  - injection H as -> ->. rewrite Ascii.eqb_refl. simpl. now apply IH.
Qed.

Lemma text_eqb_refl (a : text) : text_eqb a a = true.
Proof. now apply text_eqb_eq. Qed.

Lemma startswith_spec (p s : text) :
  startswith p s = true <-> exists r, s = p ++ r.
Proof.
  revert s; induction p as [|x p IH]; intros s; simpl.
  - split; [intros _; now exists s | reflexivity].
  - destruct s as [|y s].
    + split; [discriminate | intros [r H]; discriminate].
    + rewrite andb_true_iff, Ascii.eqb_eq, IH. split.
      * intros [-> [r ->]]. now exists r.
      * intros [r H]. injection H as -> ->. split; [reflexivity | now exists r].
Qed.

Lemma contains_spec (p s : text) : contains p s = true <-> substring p s.
Proof.
  unfold substring. induction s as [|y s IH].
  - simpl. rewrite orb_false_r, startswith_spec. split.
    + intros [r H]. now exists [], r.
    + intros [a [b H]]. destruct a; [now exists b|discriminate].
  - cbn [contains]. rewrite orb_true_iff, startswith_spec, IH. split.
    + intros [[r H] | [a [b H]]].
      * now exists [], r.
      * exists (y :: a), b. simpl. now f_equal.
    + intros [[|x a] [b H]].
      * left. now exists b.
      * right. injection H as -> ->. now exists a, b.
Qed.

Lemma contains_nil (s : text) : contains [] s = true.
Proof. destruct s; reflexivity. Qed.

Lemma contains_char (c : ascii) (s : text) : contains [c] s = true <-> In c s.
Proof.
  induction s as [|y s IH]; simpl.
  - split; [discriminate | tauto].
  - rewrite orb_true_iff, IH, andb_true_r, Ascii.eqb_eq. split.
    + intros [->|H]; tauto.
    + intros [->|H]; tauto.
Qed.

Lemma has_key_In (k : text) (d : list text) : has_key k d = true <-> In k d.
Proof.
  unfold has_key. rewrite existsb_exists. split.
  - intros [x [H1 H2]]. apply text_eqb_eq in H2. congruence.
  - intros H. exists k. split; [assumption | apply text_eqb_refl].
Qed.

(* ================================================================== *)
(** ** Credit Extractor *)

Lemma roles_loop_app (keywords : list text) (extra : list Credit.t) (out : list text) :
  roles_loop keywords out extra =
  out ++ map credit_name (filter (role_matches keywords) extra).
Proof.
  revert out; induction extra as [|p rest IH]; intros out; simpl.
  - now rewrite app_nil_r.
  - rewrite IH. unfold role_matches at 2, any_in.
    destruct (existsb _ keywords); simpl.
    + now rewrite <- app_assoc.
    + reflexivity.
Qed.

(** The keys of the dict: what of [before] has been kept. *)
Lemma fromkeys_from_first (l before d : list text) :
  (forall x, In x d <-> In x before) ->
  fromkeys_from d l = d ++ first_occurrences before l.
Proof.
  revert before d; induction l as [|x l IH]; intros before d Hd; simpl.
  - now rewrite app_nil_r.
  - destruct (in_dec (list_eq_dec ascii_dec) x before) as [Hin|Hout].
    + assert (Hk : has_key x d = true) by (apply has_key_In, Hd, Hin).
      rewrite Hk. apply IH. intros y. rewrite in_app_iff, Hd. simpl.
      split; [tauto | intros [H|[<-|[]]]; assumption].
    + assert (Hk : has_key x d = false).
      { destruct (has_key x d) eqn:E; [|reflexivity].
        apply has_key_In, Hd in E. contradiction. }
      rewrite Hk. rewrite (IH (before ++ [x]) (d ++ [x])).
      * now rewrite <- app_assoc.
      * intros y. rewrite !in_app_iff, Hd. tauto.
Qed.

Lemma first_occurrences_In (l before : list text) (x : text) :
  In x (first_occurrences before l) <-> In x l /\ ~ In x before.
Proof.
  revert before; induction l as [|y l IH]; intros before; simpl.
  - tauto.
  - destruct (in_dec (list_eq_dec ascii_dec) y before) as [Hin|Hout]; simpl;
      rewrite IH, in_app_iff; simpl.
    + split.
      * intros [H1 H2]. tauto.
      * intros [[->|H1] H2]; [contradiction|]. split; [assumption|].
        intros [H|[->|[]]]; tauto.
    + split.
      * intros [->|[H1 H2]]; tauto.
      * intros [[->|H1] H2]; [now left|].
        destruct (list_eq_dec ascii_dec y x) as [->|Hne]; [now left|].
        right. split; [assumption|]. intros [H|[H|[]]]; tauto.
Qed.







(* ================================================================== *)
(** ** Tag Builder *)

Lemma sub_runs_filter (p : ascii -> bool) (b : bool) (s : text) :
  sub_runs p [] b s = filter (fun c => negb (p c)) s.
Proof.
  revert b; induction s as [|c s IH]; intros b; simpl.
  - reflexivity.
  - destruct (p c); simpl.
    + destruct b; apply IH.
    + f_equal. apply IH.
Qed.

Lemma sub_not_alnum (x : text) : sub_class_plus not_alnum [] x = filter is_alnum x.
Proof.
  unfold sub_class_plus. rewrite sub_runs_filter. apply filter_ext.
  intros c. unfold not_alnum. apply negb_involutive.
Qed.

Lemma truthy_blank (x : text) : truthy (strip x) = negb (blank x).
Proof. unfold blank. now destruct (strip x). Qed.

Lemma hashtags_tags_of (data : Release.t) :
  hashtags data = tags_of (or_list (Release.genres data)) (or_list (Release.styles data)).
Proof.
  unfold hashtags, tags_of. f_equal.
  rewrite (filter_ext _ _ truthy_blank).
  apply map_ext. intros x. unfold tag_of. now rewrite sub_not_alnum.
Qed.




(** C6, as it is stated, fails: an entry that is not blank but has no letter
    and no digit in it yields a tag that is a bare [#].  The entry passes the
    test [x.strip()], which looks at the entry before the characters are
    removed. *)
Theorem hashtags_bare_tag :
  blank (str "!!!") = false
  /\ hashtags bare_data = str "#"
  /\ hashtags (with_genres [str "Rock"; str "&"] [str "Lo-Fi"])
     = str "#Rock # #LoFi".
Proof. repeat split; reflexivity. Qed.

(* ================================================================== *)
(** ** Caption Composer *)

Lemma choose_track_no_bar (data : Release.t) (user_text : text) :
  contains (str "|") user_text = false -> choose_track data user_text = None.
Proof. intros H. unfold choose_track. now rewrite H. Qed.

(** The decade of the source is the decade tag. *)
Lemma date_lines_decade (y : text) :
  date_lines y =
  match y with
  | [] => []
  | _ :: _ => [DATE ++ y ++ decade_tag y]
  end.
Proof.
  unfold date_lines.
  destruct y as [|d1 [|d2 [|d3 [|d4 [|d5 y]]]]]; simpl; try reflexivity;
    try (now rewrite andb_false_r).
  rewrite andb_true_r.
  destruct (is_digit d1), (is_digit d2), (is_digit d3), (is_digit d4); reflexivity.
Qed.

(** The lines before the date line bear other labels. *)
Lemma head_lines_date (data : Release.t) (user_text : text) :
  exists before,
    head_lines data user_text =
    before ++ date_lines (strip (py_str (year_or_empty (Release.year data))))
    /\ forall l, In l before -> startswith DATE l = false.
Proof.
  unfold head_lines.
  destruct (Release.artists_sort data) as [a|]; [destruct (truthy a)|];
    (destruct (choose_track data user_text) as [t|]; [destruct (truthy t)|]);
    destruct (extract_roles (Release.extraartists data) [str "producer"]) as [|p1 ps];
    destruct (extract_roles (Release.extraartists data) _) as [|e1 es];
    eexists; (split; [reflexivity|]); intros ln Hl; cbn in Hl;
    repeat (destruct Hl as [<-|Hl]; [reflexivity|]); destruct Hl.
Qed.

Lemma hashtags_head (data : Release.t) :
  hashtags data = [] \/ exists r, hashtags data = "#"%char :: r.
Proof.
  unfold hashtags.
  destruct (filter _ _) as [|x1 [|x2 xs]]; [now left| |]; right; simpl; eexists; reflexivity.
Qed.

(** The date lines of the caption are the lines of the block [if year:]. *)
Lemma caption_date_lines (data : Release.t) (user_text : text) (l : text) :
  (In l (caption_lines data user_text) /\ startswith DATE l = true) <->
  (In l (date_lines (strip (py_str (year_or_empty (Release.year data)))))).
Proof.
  destruct (head_lines_date data user_text) as [before [E Hb]].
  assert (Hd : forall y x, In x (date_lines y) -> startswith DATE x = true).
  { intros y x. rewrite date_lines_decade. destruct y; [intros []|].
    intros [<-|[]]. apply startswith_spec. eexists; reflexivity. }
  unfold caption_lines. rewrite E. split.
  - intros [Hin Hs].
    assert (Hin' : In l before \/ In l (date_lines (strip (py_str (year_or_empty (Release.year data)))))
                   \/ l = hashtags data /\ hashtags data <> []).
    { destruct (hashtags data) eqn:Eh; simpl in Hin.
      - apply in_app_iff in Hin. tauto.
      - rewrite !in_app_iff in Hin. simpl in Hin.
        destruct Hin as [[H|H]|[H|[]]]; try tauto.
        right; right. split; [now symmetry | discriminate]. }
    destruct Hin' as [H|[H|[H1 H2]]].
    + apply Hb in H. congruence.
    + assumption.
    + destruct (hashtags_head data) as [H|[r H]]; [contradiction|].
      rewrite H1, H in Hs. discriminate.
  - intros Hin. split; [|now apply Hd with (y := strip (py_str (year_or_empty (Release.year data))))].
    destruct (truthy (hashtags data)); rewrite !in_app_iff; tauto.
Qed.

Lemma year_text_present (o : option year_value) :
  strip (py_str (year_or_empty o)) <> [] <->
  exists v, o = Some v /\ v <> YearInt 0 /\ strip (py_str v) <> [].
Proof.
  destruct o as [[n|s]|]; simpl.
  - destruct (Z.eqb_spec n 0) as [->|Hn]; simpl.
    + split; [intros H; now elim H|].
      intros [v [E [H1 H2]]]. injection E as <-. now elim H1.
    + split; [|intros [v [E [H1 H2]]]; now injection E as <-].
      intros H. exists (YearInt n). repeat split; [congruence | assumption].
  - assert (E : py_str (if truthy s then YearStr s else YearStr []) = s)
      by (now destruct s).
    rewrite E. split; [|intros [v [Ev [H1 H2]]]; now injection Ev as <-].
    intros H. exists (YearStr s). repeat split; [discriminate | assumption].
  - split; [intros H; now elim H | intros [v [E _]]; discriminate].
Qed.

(** C7, as the code has it.  The caption has a date line exactly when the
    year is there, is not the number 0 and is not blank once made a string
    and trimmed (a year 0, which stands for an unknown year, gives way to the
    empty string before the conversion).  The date line is the label, the
    year string and the decade tag; the decade tag of a year string of
    exactly four digits is [ #], its third digit and [0s], so that "1994"
    gets " #90s", and the decade tag of any other year string, such as "94",
    is empty. *)
Theorem date_line_emitted :
  forall (data : Release.t) (user_text : text),
    let y := strip (py_str (year_or_empty (Release.year data))) in
    (date_emitted data user_text <->
     exists v, Release.year data = Some v /\ v <> YearInt 0 /\ strip (py_str v) <> [])
    /\ (forall l, In l (caption_lines data user_text) -> startswith DATE l = true ->
                  l = DATE ++ y ++ decade_tag y)
    /\ (forall d1 d2 d3 d4,
           is_digit d1 = true -> is_digit d2 = true ->
           is_digit d3 = true -> is_digit d4 = true ->
           decade_tag [d1; d2; d3; d4] = str " #" ++ [d3] ++ str "0s")
    /\ (forall s, length s <> 4 \/ forallb is_digit s = false -> decade_tag s = [])
    /\ (y = str "1994" -> In (DATE ++ str "1994 #90s") (caption_lines data user_text))
    /\ (y = str "94" -> In (DATE ++ str "94") (caption_lines data user_text)).
Proof.
  intros data user_text y. split; [|split; [|split; [|split; [|split]]]].
  - rewrite <- year_text_present. fold y. unfold date_emitted. split.
    + intros [l Hl]. apply caption_date_lines in Hl. fold y in Hl.
      rewrite date_lines_decade in Hl. destruct y; [destruct Hl | discriminate].
    + intros Hy. exists (DATE ++ y ++ decade_tag y). apply caption_date_lines.
      fold y. rewrite date_lines_decade. destruct y; [now elim Hy | now left].
  - intros l Hin Hs. assert (H := conj Hin Hs). apply caption_date_lines in H.
    fold y in H. rewrite date_lines_decade in H.
    destruct y; [destruct H|]. destruct H as [<-|[]]. reflexivity.
  - intros d1 d2 d3 d4 H1 H2 H3 H4. simpl. now rewrite H1, H2, H3, H4.
  - intros s [H|H].
    + destruct s as [|d1 [|d2 [|d3 [|d4 [|d5 s]]]]]; try reflexivity. now elim H.
    + destruct s as [|d1 [|d2 [|d3 [|d4 [|d5 s]]]]]; try reflexivity.
      simpl in *. rewrite andb_true_r in H. rewrite <- !andb_assoc, H. reflexivity.
  - intros Hy.
    apply (proj2 (caption_date_lines data user_text (DATE ++ str "1994 #90s"))).
    fold y. rewrite Hy. now left.
  - intros Hy.
    apply (proj2 (caption_date_lines data user_text (DATE ++ str "94"))).
    fold y. rewrite Hy. now left.
Qed.

(** The theorem at work on the years 1994 and 94. *)
Lemma date_line_emitted_witness :
  date_emitted (with_year (YearInt 1994)) []
  /\ In (DATE ++ str "1994 #90s") (caption_lines (with_year (YearInt 1994)) [])
  /\ In (DATE ++ str "94") (caption_lines (with_year (YearStr (str " 94"))) [])
  /\ decade_tag (str "1994") = str " #90s"
  /\ decade_tag (str "94") = [].
Proof.
  split; [|split; [|split; [|split]]].
  - apply (proj2 (proj1 (date_line_emitted (with_year (YearInt 1994)) []))).
    exists (YearInt 1994). repeat split; discriminate.
  - apply (proj1 (proj2 (proj2 (proj2 (proj2 (date_line_emitted (with_year (YearInt 1994)) [])))))).
    reflexivity.
  - apply (proj2 (proj2 (proj2 (proj2 (proj2 (date_line_emitted (with_year (YearStr (str " 94"))) [])))))).
    reflexivity.
  - apply (proj1 (proj2 (proj2 (date_line_emitted no_release []))) "1" "9" "9" "4")%char;
      reflexivity.
  - apply (proj1 (proj2 (proj2 (proj2 (date_line_emitted no_release []))))).
    left. simpl. lia.
Defined.

(** C7, as it is stated, fails on a year 0: the year is there and its string
    "0" is not blank, and the caption has no date line. *)
Lemma date_line_year_zero :
  ~ (date_emitted (with_year (YearInt 0)) [] <->
     exists v, Release.year (with_year (YearInt 0)) = Some v /\ strip (py_str v) <> []).
Proof.
  intros [_ H].
  assert (Hd : date_emitted (with_year (YearInt 0)) []).
  { apply H. exists (YearInt 0). split; [reflexivity | discriminate]. }
  destruct Hd as [l [Hin Hs]]. cbn in Hin.
  destruct Hin as [<-|[<-|[]]]; discriminate.
Qed.

(** C2. A record with artist "A" (as the sort name, or as the one artist of
    the list), title "B", year 2001, genres ["Soul"], no styles and no extra
    artists, and a message without [|], gives the caption of four lines:
    artist, album, date with the decade, tags; one line feed between two
    lines and none at the end. *)
Theorem build_caption_end_to_end :
  forall (data : Release.t) (user_text : text),
    (Release.artists_sort data = Some (str "A")
     \/ (Release.artists_sort data = None
         /\ Release.artists data = Some [Artist.Make (Some (str "A"))])) ->
    Release.title data = Some (str "B") ->
    (Release.year data = Some (YearInt 2001)
     \/ Release.year data = Some (YearStr (str "2001"))) ->
    Release.genres data = Some [str "Soul"] ->
    or_list (Release.styles data) = [] ->
    or_list (Release.extraartists data) = [] ->
    contains (str "|") user_text = false ->
    build_caption data user_text =
    str "🎧 Artist : A" ++ [NL] ++ str "💿 Album : B" ++ [NL]
      ++ str "📅 Date : 2001 #00s" ++ [NL] ++ str "#Soul".
Proof.
  intros data user_text Ha Ht Hy Hg Hs He Hbar.
  unfold build_caption, caption_lines, head_lines, hashtags.
  rewrite (choose_track_no_bar data _ Hbar), Ht, Hg, Hs.
  assert (Ex : forall kw, extract_roles (Release.extraartists data) kw = []).
  { intros kw. destruct (Release.extraartists data) as [[|e l]|];
      [reflexivity | discriminate | reflexivity]. }
  rewrite !Ex.
  destruct Ha as [Ha|[Ha1 Ha2]]; [rewrite Ha | rewrite Ha1, Ha2];
    (destruct Hy as [Hy|Hy]; rewrite Hy); reflexivity.
Qed.

(** The theorem at work on the record of the example. *)
Lemma build_caption_end_to_end_witness :
  build_caption soul_data (str "https://www.discogs.com/release/1") =
  str "🎧 Artist : A" ++ [NL] ++ str "💿 Album : B" ++ [NL]
    ++ str "📅 Date : 2001 #00s" ++ [NL] ++ str "#Soul".
Proof.
  apply build_caption_end_to_end;
    try reflexivity; left; reflexivity.
Defined.

(* ================================================================== *)
(** ** Facts on the matcher *)

Lemma exec_cat (A : Type) (ci : bool) (r1 r2 : regex) (s : text) (g : option text)
    (k : text -> option text -> option A) :
  exec ci (Cat r1 r2) s g k = exec ci r1 s g (fun s1 g1 => exec ci r2 s1 g1 k).
Proof. reflexivity. Qed.

Lemma exec_lit (A : Type) (ci : bool) (w s : text) (g : option text)
    (k : text -> option text -> option A) :
  exec ci (Lit w) s g k =
  match lit ci w s with
  | Some s' => k s' g
  | None => None
  end.
Proof. reflexivity. Qed.

Lemma exec_star (A : Type) (ci : bool) (p : ascii -> bool) (s : text) (g : option text)
    (k : text -> option text -> option A) :
  exec ci (Star p) s g k = greedy p s (fun s' => k s' g).
Proof. reflexivity. Qed.

Lemma exec_opt (A : Type) (ci : bool) (r : regex) (s : text) (g : option text)
    (k : text -> option text -> option A) :
  exec ci (Opt r) s g k =
  match exec ci r s g k with
  | Some m => Some m
  | None => k s g
  end.
Proof. reflexivity. Qed.

Lemma exec_star_lazy (A : Type) (ci : bool) (p : ascii -> bool) (s : text)
    (g : option text) (k : text -> option text -> option A) :
  exec ci (StarLazy p) s g k = lazy p s (fun s' => k s' g).
Proof. reflexivity. Qed.

Lemma lit_lower (w p s : text) :
  lower p = lower w -> lit true w (p ++ s) = Some s.
Proof.
  revert p; induction w as [|a w IH]; intros [|b p] H; try discriminate.
  - reflexivity.
  - simpl in H. injection H as H1 H2. simpl. unfold chr_eq.
    rewrite H1, Ascii.eqb_refl. now apply IH.
Qed.

(** A literal matches where the lowercased text begins with it. *)
Lemma lit_startswith (w s r : text) :
  lit true w s = Some r ->
  startswith (lower w) (lower s) = true /\ s = firstn (length w) s ++ r.
Proof.
  revert s; induction w as [|a w IH]; intros s H; simpl in *.
  - injection H as ->. now split.
  - destruct s as [|b s]; [discriminate|]. unfold chr_eq in H.
    destruct (Ascii.eqb (lower_char a) (lower_char b)) eqn:E; [|discriminate].
    apply IH in H as [H1 H2]. simpl. rewrite E, H1. split; [reflexivity|].
    now f_equal.
Qed.

Lemma greedy_run (A : Type) (p : ascii -> bool) (w s : text)
    (k : text -> option A) (m : A) :
  forallb p w = true -> k s = Some m -> stops p s = true ->
  greedy p (w ++ s) k = Some m.
Proof.
  intros Hw Hk Hs. induction w as [|c w IH]; simpl in *.
  - destruct s as [|c s]; simpl; [assumption|]. simpl in Hs.
    destruct (p c); [discriminate | assumption].
  - apply andb_true_iff in Hw as [Hc Hw]. rewrite Hc, (IH Hw). reflexivity.
Qed.

(** [(c+)] on a run of the class that stops: the run is the group. *)
Lemma exec_group_plus (A : Type) (ci : bool) (p : ascii -> bool) (ds rest : text)
    (g : option text) (k : text -> option text -> option A) (m : A) :
  ds <> [] -> forallb p ds = true -> stops p rest = true ->
  k rest (Some ds) = Some m ->
  exec ci (Group (Plus p)) (ds ++ rest) g k = Some m.
Proof.
  intros Hne Hd Hs Hk. destruct ds as [|d ds]; [now elim Hne|].
  simpl in Hd. apply andb_true_iff in Hd as [Hd1 Hd2].
  cbn [exec app]. rewrite Hd1. apply greedy_run; try assumption.
  change (d :: ds ++ rest) with ((d :: ds) ++ rest).
  rewrite length_app, Nat.add_sub, firstn_app, Nat.sub_diag, firstn_all.
  cbn [firstn]. now rewrite app_nil_r.
Qed.

Lemma isdigit_forallb (ds : text) :
  isdigit ds = true -> ds <> [] /\ forallb digit ds = true.
Proof. destruct ds; [discriminate|]. intros H. split; [discriminate | exact H]. Qed.

(** The grammar of the index hint: the word, blanks, a colon, blanks, and a
    run of digits that stops. *)
Lemma re_track_grammar (t w1 w2 ds rest : text) :
  lower t = str "track" ->
  forallb is_space w1 = true -> forallb is_space w2 = true ->
  isdigit ds = true -> stops digit rest = true ->
  re_match true RE_TRACK (t ++ w1 ++ ":"%char :: w2 ++ ds ++ rest)
  = Some (MatchObj (Some ds)).
Proof.
  intros Ht H1 H2 Hd Hr. apply isdigit_forallb in Hd as [Hne Hd].
  unfold re_match, RE_TRACK.
  rewrite exec_cat, exec_lit, lit_lower by exact Ht.
  rewrite exec_cat, exec_star. apply greedy_run; [exact H1| |reflexivity].
  rewrite exec_cat, exec_lit.
  change (":"%char :: w2 ++ ds ++ rest) with (str ":" ++ w2 ++ ds ++ rest).
  rewrite lit_lower by reflexivity.
  rewrite exec_cat, exec_star. apply greedy_run; [exact H2| |].
  - apply exec_group_plus; auto.
  - destruct ds as [|d ds]; [now elim Hne|]. simpl in *.
    apply andb_true_iff in Hd as [Hd _]. revert Hd. clear.
    destruct d as [[] [] [] [] [] [] [] []]; vm_compute; congruence.
Qed.

(* ================================================================== *)
(** ** Track Selector *)

Lemma lstrip_spaces (w : text) : forallb is_space w = true -> lstrip w = [].
Proof.
  induction w as [|c w IH]; simpl; [reflexivity|].
  intros H. apply andb_true_iff in H as [H1 H2]. rewrite H1. now apply IH.
Qed.

Lemma strip_spaces (w : text) : forallb is_space w = true -> strip w = [].
Proof. intros H. unfold strip. now rewrite lstrip_spaces. Qed.

Lemma split_once_first (c : ascii) (pre post : text) :
  ~ In c pre -> split_once c (pre ++ c :: post) = [pre; post].
Proof.
  induction pre as [|x pre IH]; intros H; simpl.
  - now rewrite Ascii.eqb_refl.
  - destruct (Ascii.eqb_spec x c) as [->|Hne]; [elim H; now left|].
    rewrite IH; [reflexivity|]. intros Hin. apply H. now right.
Qed.

Lemma split_once_none (c : ascii) (s : text) :
  ~ In c s -> split_once c s = [s].
Proof.
  induction s as [|x s IH]; intros H; simpl; [reflexivity|].
  destruct (Ascii.eqb_spec x c) as [->|Hne]; [elim H; now left|].
  rewrite IH; [reflexivity|]. intros Hin. apply H. now right.
Qed.

(** Without [|] the hint segment is empty, and no index hint. *)
Lemma hint_of_no_bar (user_text : text) :
  contains (str "|") user_text = false -> hint_of user_text = [].
Proof.
  intros H. unfold hint_of. rewrite split_once_none; [reflexivity|].
  intros Hin. apply contains_char in Hin. unfold str in H. simpl in H. congruence.
Qed.

Lemma by_name_first (h : text) (tracks : list Track.t) :
  by_name h tracks = first_title_with h tracks.
Proof.
  unfold first_title_with. induction tracks as [|t rest IH]; simpl; [reflexivity|].
  unfold title_has at 1. now destruct (contains h _).
Qed.

Lemma by_index_none (hint : text) (tracks : list Track.t) :
  no_index_hint_applies hint tracks -> by_index hint tracks = None.
Proof.
  unfold no_index_hint_applies, by_index, out_of_range, index_of.
  destruct (re_match true RE_TRACK hint) as [m|]; [|reflexivity].
  intros H.
  destruct (Z.leb_spec 0 (int (get_default (group1 m) []) - 1));
    destruct (Z.ltb_spec (int (get_default (group1 m) []) - 1) (Z.of_nat (length tracks)));
    simpl; try reflexivity; lia.
Qed.

Lemma choose_track_name (data : Release.t) (user_text : text) :
  contains (str "|") user_text = true ->
  no_index_hint_applies (hint_of user_text) (track_entries data) ->
  choose_track data user_text =
  first_title_with (lower (hint_of user_text)) (track_entries data).
Proof.
  intros Hbar H. unfold choose_track. rewrite Hbar. simpl.
  rewrite by_index_none by exact H. apply by_name_first.
Qed.

Lemma first_title_with_In (h : text) (tracks : list Track.t) (ttl : text) :
  first_title_with h tracks = Some ttl ->
  exists t, In t tracks /\ title_has h t = true /\ Track.title t = Some ttl.
Proof.
  unfold first_title_with. destruct (find (title_has h) tracks) as [t|] eqn:E;
    [|discriminate].
  intros H. apply find_some in E as [E1 E2]. now exists t.
Qed.



Lemma track_entries_In (data : Release.t) (t : Track.t) :
  In t (track_entries data) <->
  In t (or_list (Release.tracklist data)) /\ is_track t.
Proof.
  unfold track_entries, is_track. rewrite filter_In, text_eqb_eq. tauto.
Qed.

Lemma re_track_no_hint : re_match true RE_TRACK [] = None.
Proof. reflexivity. Qed.

(** C9. A title Track Selector returns is the title of an entry of the track
    listing whose type is "track", a missing type standing for "track". *)
Theorem choose_track_is_track :
  forall (data : Release.t) (user_text ttl : text),
    choose_track data user_text = Some ttl ->
    exists t, In t (or_list (Release.tracklist data))
              /\ get_default (Track.type_ t) (str "track") = str "track"
              /\ Track.title t = Some ttl.
Proof.
  intros data user_text ttl H.
  assert (G : exists t, In t (track_entries data) /\ Track.title t = Some ttl).
  { unfold choose_track in H.
    destruct (contains (str "|") user_text); [|discriminate]. simpl in H.
    destruct (by_index (hint_of user_text) (track_entries data)) as [r|] eqn:E.
    - subst r. unfold by_index in E.
      destruct (re_match true RE_TRACK (hint_of user_text)) as [m|]; [|discriminate].
      destruct (_ && _); [|discriminate].
      destruct (nth_error (track_entries data) _) as [t|] eqn:En; [|discriminate].
      exists t. split; [now apply nth_error_In in En | congruence].
    - rewrite by_name_first in H. apply first_title_with_In in H as [t [H1 [_ H2]]].
      now exists t. }
  destruct G as [t [H1 H2]]. apply track_entries_In in H1 as [H1 H3].
  now exists t.
Qed.

(** The theorem at work: the heading "Side A" is not what [| side] finds. *)
Lemma choose_track_is_track_witness :
  exists t, In t (or_list (Release.tracklist headed_tracks))
            /\ get_default (Track.type_ t) (str "track") = str "track"
            /\ Track.title t = Some (str "Moonlight Again").
Proof.
  apply (choose_track_is_track headed_tracks (str "u | track:2")). reflexivity.
Defined.

(** C10. With a message that has only blanks after its first [|], the hint
    segment is empty, and Track Selector returns the title of the first entry
    that is a track, when that entry has a title. *)
Theorem choose_track_empty_hint :
  forall (data : Release.t) (pre ws : text) (t : Track.t) (rest : list Track.t)
         (ttl : text),
    ~ In "|"%char pre ->
    forallb is_space ws = true ->
    track_entries data = t :: rest ->
    Track.title t = Some ttl ->
    hint_of (pre ++ "|"%char :: ws) = []
    /\ choose_track data (pre ++ "|"%char :: ws) = Some ttl.
Proof.
  intros data pre ws t rest ttl Hpre Hws Ht Httl.
  assert (Eh : hint_of (pre ++ "|"%char :: ws) = []).
  { unfold hint_of. rewrite split_once_first by exact Hpre. simpl.
    now apply strip_spaces. }
  split; [exact Eh|].
  unfold choose_track.
  assert (Hbar : contains (str "|") (pre ++ "|"%char :: ws) = true).
  { apply contains_char. apply in_app_iff. right. now left. }
  rewrite Hbar, Eh, Ht. simpl negb. cbv iota.
  change (by_index [] (t :: rest)) with (@None (option text)).
  simpl. rewrite contains_nil. exact Httl.
Qed.

(** The theorem at work: the heading comes first, the first track is taken. *)
Lemma choose_track_empty_hint_witness :
  hint_of (str "u |  ") = []
  /\ choose_track headed_tracks (str "u |  ") = Some (str "Blue Moonlight").
Proof.
  apply (@choose_track_empty_hint headed_tracks (str "u ") (str "  ")
           (titled "Blue Moonlight") [titled "Moonlight Again"] (str "Blue Moonlight")).
  - intros [H|[H|[]]]; discriminate.
  - reflexivity.
  - reflexivity.
  - reflexivity.
Defined.

(* ================================================================== *)
(** ** URL Identifier *)

Example extract_id_new_url :
  extract_id (url_text new_url) = (Some (str "release"), Some (str "249504")).
Proof. reflexivity. Qed.

Example extract_id_old_url :
  extract_id (url_text old_url) = (Some (str "release"), Some (str "1234")).
Proof. reflexivity. Qed.

Example extract_id_master :
  extract_id (str "https://www.discogs.com/master/96559-X")
  = (Some (str "master"), Some (str "96559")).
Proof. reflexivity. Qed.

Example extract_id_neither :
  extract_id (str "https://www.discogs.com/artist/72872") = (None, None).
Proof. reflexivity. Qed.

Lemma startswith_app_nth (w b r : text) (c : ascii) :
  startswith w (b ++ c :: r) = true -> length b < length w ->
  nth_error w (length b) = Some c.
Proof.
  revert w; induction b as [|y b IH]; intros [|x w] H Hl; simpl in *; try lia.
  - apply andb_true_iff in H as [H _]. apply Ascii.eqb_eq in H. now subst.
  - apply andb_true_iff in H as [_ H]. apply IH; [assumption | lia].
Qed.

Lemma startswith_app_long (w b r : text) :
  startswith w (b ++ r) = true -> length w <= length b -> startswith w b = true.
Proof.
  revert b; induction w as [|x w IH]; intros [|y b] H Hl; simpl in *;
    try reflexivity; try lia.
  apply andb_true_iff in H as [H1 H2]. rewrite H1. simpl.
  apply IH; [assumption | lia].
Qed.

Lemma contains_suffix (p a b : text) :
  startswith p b = true -> contains p (a ++ b) = true.
Proof.
  intros H. apply contains_spec. apply startswith_spec in H as [r ->].
  now exists a, r.
Qed.

Lemma lower_app (a b : text) : lower (a ++ b) = lower a ++ lower b.
Proof. apply map_app. Qed.

Lemma lower_digits (ds : text) : forallb digit ds = true -> lower ds = ds.
Proof.
  induction ds as [|d ds IH]; simpl; [reflexivity|].
  intros H. apply andb_true_iff in H as [H1 H2]. rewrite (IH H2). f_equal.
  revert H1. clear. destruct d as [[] [] [] [] [] [] [] []]; vm_compute; congruence.
Qed.

Lemma digit_no_slash (d : ascii) : digit d = true -> Ascii.eqb "/" d = false.
Proof. destruct d as [[] [] [] [] [] [] [] []]; vm_compute; congruence. Qed.


(** The lines of the search: a start at which the pattern fails is passed. *)
Lemma search_skip (ci : bool) (r : regex) (pre s : text) :
  (forall a b, pre = a ++ b -> b <> [] -> re_match ci r (b ++ s) = None) ->
  search ci r (pre ++ s) = search ci r s.
Proof.
  induction pre as [|c pre IH]; intros H; [reflexivity|].
  assert (E0 := H [] (c :: pre) eq_refl ltac:(discriminate)).
  cbn [app] in *. cbn [search]. rewrite E0.
  apply IH. intros a b E Hb. apply (H (c :: a) b); [now rewrite E | assumption].
Qed.

Lemma search_here (ci : bool) (r : regex) (s : text) (m : match_obj) :
  re_match ci r s = Some m -> search ci r s = Some m.
Proof. intros H. destruct s; cbn [search]; now rewrite H. Qed.

Lemma lazy_skip (A : Type) (p : ascii -> bool) (q s : text) (k : text -> option A) :
  forallb p q = true ->
  (forall a b, q = a ++ b -> b <> [] -> k (b ++ s) = None) ->
  lazy p (q ++ s) k = lazy p s k.
Proof.
  induction q as [|c q IH]; intros Hp H; [reflexivity|].
  simpl in Hp. apply andb_true_iff in Hp as [Hc Hp].
  assert (E0 := H [] (c :: q) eq_refl ltac:(discriminate)).
  cbn [app] in *. cbn [lazy]. rewrite E0, Hc.
  apply IH; [assumption|].
  intros a b E Hb. apply (H (c :: a) b); [now rewrite E | assumption].
Qed.

Lemma lazy_none (A : Type) (p : ascii -> bool) (s : text) (k : text -> option A) :
  (forall a b, s = a ++ b -> k b = None) -> lazy p s k = None.
Proof.
  induction s as [|c s IH]; intros H; cbn [lazy].
  - now rewrite (H [] [] eq_refl).
  - rewrite (H [] (c :: s) eq_refl). destruct (p c); [|reflexivity].
    apply IH. intros a b E. apply (H (c :: a) b). now rewrite E.
Qed.

Lemma lazy_here (A : Type) (p : ascii -> bool) (s : text) (k : text -> option A) (m : A) :
  k s = Some m -> lazy p s k = Some m.
Proof. intros H. destruct s; cbn [lazy]; now rewrite H. Qed.

(** The host name does not overlap itself: where it begins inside [b ++ host],
    and not at the host, it is inside [b]. *)
Lemma host_not_before (b r : text) :
  b <> [] ->
  startswith (str "discogs.com/") (b ++ str "discogs.com/" ++ r) = true ->
  startswith (str "discogs.com/") b = true.
Proof.
  intros Hb H.
  destruct (le_lt_dec (length (str "discogs.com/")) (length b)) as [Hl|Hl].
  - now apply startswith_app_long with (r := str "discogs.com/" ++ r).
  - exfalso. apply startswith_app_nth in H; [|exact Hl].
    destruct b as [|c0 b]; [now elim Hb|]. simpl length in *.
    remember (length b) as j eqn:Ej. clear Ej.
    do 11 (destruct j as [|j]; [discriminate|]). simpl in Hl. lia.
Qed.








Lemma path_ok_cases (path : text) :
  path_ok path = true ->
  path = [] \/ exists q, path = q ++ str "/" /\ forallb dot q = true.
Proof.
  unfold path_ok. intros H. apply andb_true_iff in H as [Hd Hl].
  destruct (rev path) as [|c r] eqn:E.
  - left. apply (f_equal (@rev ascii)) in E. now rewrite rev_involutive in E.
  - right. apply Ascii.eqb_eq in Hl. subst c. exists (rev r).
    apply (f_equal (@rev ascii)) in E. rewrite rev_involutive in E. simpl in E.
    split; [exact E|]. rewrite E, forallb_app in Hd.
    now apply andb_true_iff in Hd as [Hd _].
Qed.



(* ================================================================== *)
(** ** What a match tells: the matcher read backwards *)

Lemma lit_some (w s r : text) :
  lit true w s = Some r -> exists p, s = p ++ r /\ lower p = lower w.
Proof.
  revert s; induction w as [|a w IH]; intros s H; simpl in H.
  - injection H as ->. now exists [].
  - destruct s as [|b s]; [discriminate|]. unfold chr_eq in H.
    destruct (Ascii.eqb_spec (lower_char a) (lower_char b)) as [E|E]; [|discriminate].
    apply IH in H as [p [-> Hp]]. exists (b :: p). simpl. now rewrite Hp, E.
Qed.

Lemma lazy_some (A : Type) (p : ascii -> bool) (s : text) (k : text -> option A) (m : A) :
  lazy p s k = Some m ->
  exists a b, s = a ++ b /\ forallb p a = true /\ k b = Some m.
Proof.
  induction s as [|c s IH]; cbn [lazy]; intros H.
  - destruct (k []) eqn:E; [|discriminate]. injection H as <-.
    exists [], []. now repeat split.
  - destruct (k (c :: s)) eqn:E.
    + exists [], (c :: s). injection H as <-. now repeat split.
    + destruct (p c) eqn:Ec; [|discriminate].
      apply IH in H as [a [b [-> [Ha Hb]]]]. exists (c :: a), b.
      simpl. now rewrite Ec, Ha.
Qed.

Lemma greedy_some (A : Type) (p : ascii -> bool) (s : text) (k : text -> option A) (m : A) :
  greedy p s k = Some m ->
  exists a b, s = a ++ b /\ forallb p a = true /\ k b = Some m.
Proof.
  induction s as [|c s IH]; cbn [greedy]; intros H.
  - now exists [], [].
  - destruct (p c) eqn:Ec; [|now exists [], (c :: s)].
    destruct (greedy p s k) as [m'|] eqn:Eg; [|now exists [], (c :: s)].
    injection H as <-. destruct (IH eq_refl) as [a [b [-> [Ha Hb]]]].
    exists (c :: a), b. simpl. now rewrite Ec, Ha.
Qed.

(** With a continuation that never fails, [c*] takes the whole run. *)
Lemma greedy_total (A : Type) (p : ascii -> bool) (s : text) (k : text -> option A) (m : A) :
  (forall x, k x <> None) ->
  greedy p s k = Some m ->
  exists a b, s = a ++ b /\ forallb p a = true /\ stops p b = true /\ k b = Some m.
Proof.
  intros Hk. revert m. induction s as [|c s IH]; cbn [greedy]; intros m H.
  - now exists [], [].
  - destruct (p c) eqn:Ec.
    + destruct (greedy p s k) as [m'|] eqn:Eg.
      * injection H as <-. destruct (IH m' eq_refl) as [a [b [-> [Ha [Hs Hb]]]]].
        exists (c :: a), b. simpl. now rewrite Ec, Ha.
      * exfalso. clear -Hk Eg. induction s as [|d s IHs]; cbn [greedy] in Eg.
        -- now apply (Hk []).
        -- destruct (p d); [|now apply (Hk (d :: s))].
           destruct (greedy p s k); [discriminate | now apply (Hk (d :: s))].
    + exists [], (c :: s). simpl. now rewrite Ec.
Qed.

Lemma search_some (ci : bool) (r : regex) (t : text) (m : match_obj) :
  search ci r t = Some m -> exists a b, t = a ++ b /\ re_match ci r b = Some m.
Proof.
  induction t as [|c t IH]; cbn [search]; intros H.
  - destruct (re_match ci r []) eqn:E; [|discriminate]. exists [], [].
    split; [reflexivity | congruence].
  - destruct (re_match ci r (c :: t)) eqn:E.
    + exists [], (c :: t). split; [reflexivity | congruence].
    + apply IH in H as [a [b [-> Hb]]]. now exists (c :: a), b.
Qed.

(** The end of the three patterns, [(\d+)]: the group is the whole run of
    digits at that place. *)
Lemma group_digits_inv (s : text) (g : option text) (m : match_obj) :
  exec true (Group (Plus digit)) s g (fun _ g1 => Some (MatchObj g1)) = Some m ->
  exists ds rest, s = ds ++ rest /\ isdigit ds = true /\ stops digit rest = true
                  /\ m = MatchObj (Some ds).
Proof.
  cbn [exec]. destruct s as [|c s]; [discriminate|].
  destruct (digit c) eqn:Ec; [|discriminate]. intros H.
  apply greedy_total in H; [|discriminate].
  destruct H as [a [b [-> [Ha [Hs Hm]]]]]. exists (c :: a), b.
  change (c :: a ++ b) with ((c :: a) ++ b) in Hm.
  rewrite length_app, Nat.add_sub, firstn_app, Nat.sub_diag, firstn_all in Hm.
  cbn [firstn] in Hm. rewrite app_nil_r in Hm. injection Hm as <-.
  repeat split; try assumption. simpl. unfold digit in *. now rewrite Ec, Ha.
Qed.

Lemma lower_is_slash (p : text) : lower p = str "/" -> p = str "/".
Proof.
  destruct p as [|c [|d p]]; try discriminate. intros H. injection H as H.
  f_equal. revert H. clear.
  destruct c as [[] [] [] [] [] [] [] []]; vm_compute; congruence.
Qed.

(** What the release and master patterns match at a place: the host name, an
    optional part on one line closed by a slash, the word and a slash, and
    the run of digits, which is the group. *)
Lemma entity_match_inv (w s : text) (m : match_obj) :
  re_match true
    (Cat (Lit (str "discogs.com/"))
       (Cat (Opt (Cat (StarLazy dot) (Lit (str "/"))))
          (Cat (Lit w) (Group (Plus digit))))) s = Some m ->
  exists h mid wd ds rest,
    s = h ++ mid ++ wd ++ ds ++ rest
    /\ lower h = str "discogs.com/"
    /\ (mid = [] \/ exists q, mid = q ++ str "/" /\ forallb dot q = true)
    /\ lower wd = lower w
    /\ isdigit ds = true /\ stops digit rest = true
    /\ m = MatchObj (Some ds).
Proof.
  unfold re_match. rewrite exec_cat, exec_lit.
  destruct (lit true (str "discogs.com/") s) as [s1|] eqn:E1; [|discriminate].
  apply lit_some in E1 as [h [-> Hh]].
  assert (T : forall s2 g,
             exec true (Cat (Lit w) (Group (Plus digit))) s2 g
               (fun _ g1 => Some (MatchObj g1)) = Some m ->
             exists wd ds rest, s2 = wd ++ ds ++ rest /\ lower wd = lower w
                                /\ isdigit ds = true /\ stops digit rest = true
                                /\ m = MatchObj (Some ds)).
  { intros s2 g. rewrite exec_cat, exec_lit.
    destruct (lit true w s2) as [s3|] eqn:E3; [|discriminate].
    apply lit_some in E3 as [wd [-> Hwd]]. intros H.
    apply group_digits_inv in H as [ds [rest [-> [Hd [Hs Hm]]]]].
    now exists wd, ds, rest. }
  rewrite exec_cat, exec_opt.
  destruct (exec true (Cat (StarLazy dot) (Lit (str "/"))) s1 None _) as [m0|] eqn:E2.
  - intros H. injection H as ->. rewrite exec_cat, exec_star_lazy in E2.
    apply lazy_some in E2 as [q [b [-> [Hq Hb]]]]. rewrite exec_lit in Hb.
    destruct (lit true (str "/") b) as [b'|] eqn:E4; [|discriminate].
    apply lit_some in E4 as [p [-> Hp]]. apply lower_is_slash in Hp. subst p.
    apply T in Hb as [wd [ds [rest [-> [Hwd [Hd [Hs Hm]]]]]]].
    exists h, (q ++ str "/"), wd, ds, rest. rewrite <- !app_assoc.
    repeat split; try assumption. right. now exists q.
  - intros H. apply T in H as [wd [ds [rest [-> [Hwd [Hd [Hs Hm]]]]]]].
    exists h, [], wd, ds, rest. repeat split; try assumption. now left.
Qed.

Lemma re_track_inv (hint : text) (m : match_obj) :
  re_match true RE_TRACK hint = Some m ->
  exists t w1 w2 ds rest,
    hint = t ++ w1 ++ ":"%char :: w2 ++ ds ++ rest
    /\ lower t = str "track"
    /\ forallb is_space w1 = true /\ forallb is_space w2 = true
    /\ isdigit ds = true /\ stops digit rest = true
    /\ m = MatchObj (Some ds).
Proof.
  unfold re_match, RE_TRACK. rewrite exec_cat, exec_lit.
  destruct (lit true (str "track") hint) as [s1|] eqn:E1; [|discriminate].
  apply lit_some in E1 as [t [-> Ht]].
  rewrite exec_cat, exec_star. intros H.
  apply greedy_some in H as [w1 [s2 [-> [H1 H]]]].
  rewrite exec_cat, exec_lit in H.
  destruct (lit true (str ":") s2) as [s3|] eqn:E3; [|discriminate].
  apply lit_some in E3 as [p [-> Hp]].
  assert (p = str ":").
  { destruct p as [|c [|d p]]; try discriminate. injection Hp as Hp. f_equal.
    revert Hp. clear. destruct c as [[] [] [] [] [] [] [] []]; vm_compute; congruence. }
  subst p. rewrite exec_cat, exec_star in H.
  apply greedy_some in H as [w2 [s4 [-> [H2 H]]]].
  apply group_digits_inv in H as [ds [rest [-> [Hd [Hs Hm]]]]].
  exists t, w1, w2, ds, rest. now repeat split.
Qed.

(* ================================================================== *)
(** ** Where the patterns match *)







Lemma found_occurs (w t : text) (m : match_obj) :
  search true
    (Cat (Lit (str "discogs.com/"))
       (Cat (Opt (Cat (StarLazy dot) (Lit (str "/"))))
          (Cat (Lit w) (Group (Plus digit))))) t = Some m ->
  occurs (lower w) t
  /\ exists ds, m = MatchObj (Some ds) /\ isdigit ds = true /\ substring ds t.
Proof.
  intros H. apply search_some in H as [a [b [-> Hb]]].
  apply entity_match_inv in Hb as [h [mid [wd [ds [rest [-> [Hh [Hmid [Hw [Hd [_ ->]]]]]]]]]]].
  split.
  - now exists a, h, mid, wd, ds, rest.
  - exists ds. repeat split; try assumption.
    exists (a ++ h ++ mid ++ wd), rest. now rewrite <- !app_assoc.
Qed.




(** X1. On a hint segment that is ASCII, the pattern of the index hint
    matches exactly the hint segments made of the word [track] in any case,
    blanks, a colon, blanks and a run of digits that stops; the group is that
    run. *)
Theorem re_track_matches :
  forall (hint : text) (m : match_obj),
    ascii_text hint = true ->
    (re_match true RE_TRACK hint = Some m <->
     exists t w1 w2 ds rest,
       hint = t ++ w1 ++ ":"%char :: w2 ++ ds ++ rest
       /\ lower t = str "track"
       /\ forallb is_space w1 = true /\ forallb is_space w2 = true
       /\ isdigit ds = true /\ stops digit rest = true
       /\ m = MatchObj (Some ds)).
Proof.
  intros hint m _. split; [apply re_track_inv|].
  intros [t [w1 [w2 [ds [rest [-> [Ht [H1 [H2 [Hd [Hs ->]]]]]]]]]]].
  now apply re_track_grammar.
Qed.

(** The theorem at work on a hint with blanks and a rest, and on a hint
    whose colon is missing. *)
Lemma re_track_matches_witness :
  re_match true RE_TRACK (str "TRACK : 12 please") = Some (MatchObj (Some (str "12")))
  /\ ~ (exists t w1 w2 ds rest,
          str "track 2" = t ++ w1 ++ ":"%char :: w2 ++ ds ++ rest
          /\ lower t = str "track"
          /\ forallb is_space w1 = true /\ forallb is_space w2 = true
          /\ isdigit ds = true /\ stops digit rest = true
          /\ MatchObj (Some (str "2")) = MatchObj (Some ds)).
Proof.
  split.
  - apply (proj2 (re_track_matches (str "TRACK : 12 please") (MatchObj (Some (str "12")))
                   eq_refl)).
    exists (str "TRACK"), (str " "), (str " "), (str "12"), (str " please").
    repeat split.
  - intros H.
    apply (proj2 (re_track_matches (str "track 2") (MatchObj (Some (str "2"))) eq_refl))
      in H.
    discriminate.
Defined.

(** X2. On a text that is ASCII, the id URL Identifier returns is never empty
    and is all digits, it is a piece of the text, and it comes with the kind:
    the result is nothing and nothing, or "release" or "master" with such an
    id. *)
Theorem extract_id_digits :
  forall t : text,
    ascii_text t = true ->
    extract_id t = (None, None)
    \/ exists kind ds,
         extract_id t = (Some kind, Some ds)
         /\ (kind = str "release" \/ kind = str "master")
         /\ isdigit ds = true
         /\ substring ds t.
Proof.
  intros t _. unfold extract_id.
  destruct (search true RE_RELEASE t) as [m|] eqn:E1.
  - right. destruct (found_occurs _ _ E1) as [_ [ds [-> [Hd Hs]]]].
    exists (str "release"), ds. repeat split; auto.
  - destruct (search true RE_MASTER t) as [m|] eqn:E2; [|now left].
    right. destruct (found_occurs _ _ E2) as [_ [ds [-> [Hd Hs]]]].
    exists (str "master"), ds. repeat split; auto.
Qed.

(** The theorem at work: the id of the old URL is of digits, and a kind
    comes with it. *)
Lemma extract_id_digits_witness :
  extract_id (url_text old_url) = (None, None)
  \/ exists kind ds,
       extract_id (url_text old_url) = (Some kind, Some ds)
       /\ (kind = str "release" \/ kind = str "master")
       /\ isdigit ds = true
       /\ substring ds (url_text old_url).
Proof. apply (extract_id_digits (url_text old_url)). reflexivity. Defined.

Lemma contains_app_mid (p a b c : text) :
  contains p (a ++ p ++ c) = true.
Proof. apply contains_spec. now exists a, c. Qed.

(** X3. A text that is ASCII and in which the host name [discogs.com/] does
    not occur, in any case, has no id; nor has one in which neither
    [release/] nor [master/] occurs. *)
Theorem extract_id_nothing :
  forall t : text,
    ascii_text t = true ->
    (contains (str "discogs.com/") (lower t) = false -> extract_id t = (None, None))
    /\ (contains (str "release/") (lower t) = false ->
        contains (str "master/") (lower t) = false ->
        extract_id t = (None, None)).
Proof.
  intros t _.
  assert (G : forall w m,
             search true
               (Cat (Lit (str "discogs.com/"))
                  (Cat (Opt (Cat (StarLazy dot) (Lit (str "/"))))
                     (Cat (Lit w) (Group (Plus digit))))) t = Some m ->
             contains (str "discogs.com/") (lower t) = true
             /\ contains (lower w) (lower t) = true).
  { intros w m H. apply search_some in H as [a [b [-> Hb]]].
    apply entity_match_inv in Hb as [h [mid [wd [ds [rest [-> [Hh [_ [Hw _]]]]]]]]].
    rewrite !lower_app, Hh, Hw. split.
    - apply contains_app_mid; exact [].
    - rewrite (app_assoc (lower a)), (app_assoc (lower a ++ _)).
      apply contains_app_mid; exact []. }
  unfold extract_id. split.
  - intros H.
    destruct (search true RE_RELEASE t) as [m|] eqn:E1;
      [apply G in E1 as [E1 _]; congruence|].
    destruct (search true RE_MASTER t) as [m|] eqn:E2;
      [apply G in E2 as [E2 _]; congruence|].
    reflexivity.
  - intros H1 H2.
    destruct (search true RE_RELEASE t) as [m|] eqn:E1;
      [apply G in E1 as [_ E1]; change (lower (str "release/")) with (str "release/") in E1;
       congruence|].
    destruct (search true RE_MASTER t) as [m|] eqn:E2;
      [apply G in E2 as [_ E2]; change (lower (str "master/")) with (str "master/") in E2;
       congruence|].
    reflexivity.
Qed.

(** The theorem at work on a message without a URL. *)
Lemma extract_id_nothing_witness :
  extract_id (str "hello | track:2") = (None, None)
  /\ extract_id (str "https://www.discogs.com/artist/72872") = (None, None).
Proof.
  split.
  - apply (proj1 (extract_id_nothing (str "hello | track:2") eq_refl)). reflexivity.
  - apply (proj2 (extract_id_nothing (str "https://www.discogs.com/artist/72872") eq_refl));
      reflexivity.
Defined.


(* ================================================================== *)
(** ** The case of the message *)

Ltac by_cases_on c :=
  destruct c as [[] [] [] [] [] [] [] []]; vm_compute; try reflexivity; try congruence.

Lemma lower_char_idem (c : ascii) : lower_char (lower_char c) = lower_char c.
Proof. by_cases_on c. Qed.

Lemma lower_idem (s : text) : lower (lower s) = lower s.
Proof.
  unfold lower. rewrite map_map. apply map_ext. apply lower_char_idem.
Qed.

Lemma dot_lower_char (c : ascii) : dot (lower_char c) = dot c.
Proof. by_cases_on c. Qed.

Lemma space_lower_char (c : ascii) : is_space (lower_char c) = is_space c.
Proof. by_cases_on c. Qed.

Lemma digit_lower_char (c : ascii) : is_digit (lower_char c) = is_digit c.
Proof. by_cases_on c. Qed.

Lemma bar_lower_char (c : ascii) : Ascii.eqb (lower_char c) "|" = Ascii.eqb c "|".
Proof. by_cases_on c. Qed.

Lemma lit_lower_text (w s : text) :
  lit true w (lower s) = option_map lower (lit true w s).
Proof.
  revert s; induction w as [|a w IH]; intros [|b s]; try reflexivity.
  cbn [lit lower map]. unfold chr_eq. rewrite lower_char_idem.
  destruct (Ascii.eqb _ _); [apply IH | reflexivity].
Qed.

Section Lowered.

Variables A B : Type.
Variable F : A -> B.

Lemma lazy_lower (p : ascii -> bool) (s : text)
    (k : text -> option A) (k' : text -> option B) :
  (forall c, p (lower_char c) = p c) ->
  (forall s1, k' (lower s1) = option_map F (k s1)) ->
  lazy p (lower s) k' = option_map F (lazy p s k).
Proof.
  intros Hp Hk. induction s as [|c s IH]; cbn [lazy lower map].
  - change (@nil ascii) with (lower []) at 1. rewrite Hk. now destruct (k []).
  - change (lower_char c :: map lower_char s) with (lower (c :: s)) at 1.
    rewrite Hk. destruct (k (c :: s)); [reflexivity|]. simpl option_map.
    rewrite Hp. destruct (p c); [apply IH | reflexivity].
Qed.

Lemma greedy_lower (p : ascii -> bool) (s : text)
    (k : text -> option A) (k' : text -> option B) :
  (forall c, p (lower_char c) = p c) ->
  (forall s1, k' (lower s1) = option_map F (k s1)) ->
  greedy p (lower s) k' = option_map F (greedy p s k).
Proof.
  intros Hp Hk. induction s as [|c s IH]; cbn [greedy lower map].
  - change (@nil ascii) with (lower []). apply Hk.
  - rewrite Hp. fold (lower s). rewrite IH.
    change (lower_char c :: lower s) with (lower (c :: s)).
    destruct (p c); [|apply Hk].
    destruct (greedy p s k); [reflexivity | apply Hk].
Qed.

(** The matcher with [re.I] on the lowercased text does what it does on
    the text, the group being lowercased. *)
Lemma exec_lower (r : regex) :
  lower_stable r ->
  forall (s : text) (g : option text)
         (k : text -> option text -> option A) (k' : text -> option text -> option B),
    (forall s1 g1, k' (lower s1) (option_map lower g1) = option_map F (k s1 g1)) ->
    exec true r (lower s) (option_map lower g) k' = option_map F (exec true r s g k).
Proof.
  induction r as [w|r1 IH1 r2 IH2|r1 IH1|p|p|p|r1 IH1]; intros Hr s g k k' Hk.
  - rewrite !exec_lit, lit_lower_text. destruct (lit true w s); [apply Hk | reflexivity].
  - destruct Hr as [H1 H2]. rewrite !exec_cat. apply IH1; [exact H1|].
    intros s1 g1. now apply IH2.
  - rewrite !exec_opt. rewrite (IH1 Hr s g k k' Hk).
    destruct (exec true r1 s g k); [reflexivity | apply Hk].
  - rewrite !exec_star_lazy. apply lazy_lower; [exact Hr|]. intros s1. apply Hk.
  - rewrite !exec_star. apply greedy_lower; [exact Hr|]. intros s1. apply Hk.
  - destruct s as [|c s]; [reflexivity|]. cbn [exec lower map].
    simpl in Hr. rewrite Hr. destruct (p c); [|reflexivity].
    apply greedy_lower; [exact Hr|]. intros s1. apply Hk.
  - cbn [exec]. apply IH1; [exact Hr|]. intros s1 g1.
    replace (firstn (length (lower s) - length (lower s1)) (lower s))
      with (lower (firstn (length s - length s1) s)).
    + apply (Hk s1 (Some (firstn (length s - length s1) s))).
    + unfold lower. now rewrite !length_map, firstn_map.
Qed.

End Lowered.

Lemma re_match_lower (r : regex) (s : text) :
  lower_stable r ->
  re_match true r (lower s) = option_map lower_match (re_match true r s).
Proof.
  intros Hr. unfold re_match.
  apply (@exec_lower _ _ lower_match r Hr s None); reflexivity.
Qed.

Lemma search_lower (r : regex) (t : text) :
  lower_stable r ->
  search true r (lower t) = option_map lower_match (search true r t).
Proof.
  intros Hr. induction t as [|c t IH].
  - assert (E := @re_match_lower r [] Hr). change (lower []) with (@nil ascii) in *.
    cbn [search]. rewrite E at 1. now destruct (re_match true r []).
  - cbn [search lower map]. change (lower_char c :: map lower_char t) with (lower (c :: t)).
    rewrite re_match_lower by exact Hr.
    destruct (re_match true r (c :: t)); [reflexivity | apply IH].
Qed.

Lemma entity_stable (w : text) :
  lower_stable
    (Cat (Lit (str "discogs.com/"))
       (Cat (Opt (Cat (StarLazy dot) (Lit (str "/"))))
          (Cat (Lit w) (Group (Plus digit))))).
Proof.
  simpl. repeat split; auto using dot_lower_char, digit_lower_char.
Qed.

Lemma track_stable : lower_stable RE_TRACK.
Proof.
  simpl. repeat split; auto using space_lower_char, digit_lower_char.
Qed.

Lemma isdigit_lower (ds : text) : isdigit ds = true -> lower ds = ds.
Proof. intros H. apply isdigit_forallb in H as [_ H]. now apply lower_digits. Qed.

(** X4. On a text that is ASCII, URL Identifier does not look at the case of
    the text: the lowercased text gives the kind and the id of the text. *)
Theorem extract_id_lower :
  forall t : text,
    ascii_text t = true -> extract_id (lower t) = extract_id t.
Proof.
  intros t _. unfold extract_id.
  assert (G : forall w,
             let r := Cat (Lit (str "discogs.com/"))
                        (Cat (Opt (Cat (StarLazy dot) (Lit (str "/"))))
                           (Cat (Lit w) (Group (Plus digit)))) in
             search true r (lower t) = search true r t).
  { intros w r. unfold r. rewrite search_lower by apply entity_stable.
    destruct (search true _ t) as [m|] eqn:E; [|reflexivity].
    apply search_some in E as [a [b [_ Hb]]].
    apply entity_match_inv in Hb as [h [mid [wd [ds [rest [_ [_ [_ [_ [Hd [_ ->]]]]]]]]]]].
    simpl. unfold lower_match. simpl. now rewrite (isdigit_lower _ Hd). }
  change (search true RE_RELEASE (lower t)) with
    (search true (Cat (Lit (str "discogs.com/"))
                    (Cat (Opt (Cat (StarLazy dot) (Lit (str "/"))))
                       (Cat (Lit (str "release/")) (Group (Plus digit))))) (lower t)).
  change (search true RE_MASTER (lower t)) with
    (search true (Cat (Lit (str "discogs.com/"))
                    (Cat (Opt (Cat (StarLazy dot) (Lit (str "/"))))
                       (Cat (Lit (str "master/")) (Group (Plus digit))))) (lower t)).
  now rewrite !G.
Qed.

(** The theorem at work: the old URL in capitals and in small letters. *)
Lemma extract_id_lower_witness :
  extract_id (str "see http://discogs.com/de/artist-title/release/1234?ev=rb")
  = (Some (str "release"), Some (str "1234")).
Proof.
  change (str "see http://discogs.com/de/artist-title/release/1234?ev=rb")
    with (lower (str "SEE HTTP://Discogs.Com/DE/Artist-Title/RELEASE/1234?ev=RB")).
  rewrite (extract_id_lower (str "SEE HTTP://Discogs.Com/DE/Artist-Title/RELEASE/1234?ev=RB")
             eq_refl).
  reflexivity.
Defined.

Lemma bar_eq_lower_char (c : ascii) : Ascii.eqb "|" (lower_char c) = Ascii.eqb "|" c.
Proof. by_cases_on c. Qed.

Lemma contains_bar_lower (t : text) :
  contains (str "|") (lower t) = contains (str "|") t.
Proof.
  induction t as [|c t IH]; [reflexivity|].
  cbn [lower map contains]. fold (lower t). rewrite IH.
  change (startswith (str "|") (lower_char c :: lower t))
    with (Ascii.eqb "|" (lower_char c) && true).
  change (startswith (str "|") (c :: t)) with (Ascii.eqb "|" c && true).
  now rewrite bar_eq_lower_char.
Qed.

Lemma split_once_lower (s : text) :
  split_once "|" (lower s) = map lower (split_once "|" s).
Proof.
  induction s as [|x s IH]; [reflexivity|].
  cbn [lower map split_once]. fold (lower s). rewrite bar_lower_char, IH.
  destruct (Ascii.eqb x "|"); [reflexivity|].
  now destruct (split_once "|" s).
Qed.

Lemma lstrip_lower (s : text) : lstrip (lower s) = lower (lstrip s).
Proof.
  induction s as [|c s IH]; [reflexivity|].
  cbn [lower map lstrip]. rewrite space_lower_char. fold (lower s).
  destruct (is_space c); [apply IH | reflexivity].
Qed.

Lemma strip_lower (s : text) : strip (lower s) = lower (strip s).
Proof.
  unfold strip, rstrip. rewrite lstrip_lower. unfold lower at 1.
  rewrite <- map_rev. fold (lower (rev (lstrip s))). rewrite lstrip_lower.
  unfold lower. now rewrite map_rev.
Qed.

Lemma hint_of_lower (t : text) : hint_of (lower t) = lower (hint_of t).
Proof.
  unfold hint_of. rewrite split_once_lower, <- strip_lower. f_equal.
  apply (map_nth lower (split_once "|" t) [] 1).
Qed.

Lemma by_index_lower (h : text) (tracks : list Track.t) :
  by_index (lower h) tracks = by_index h tracks.
Proof.
  unfold by_index. rewrite re_match_lower by apply track_stable.
  destruct (re_match true RE_TRACK h) as [m|] eqn:E; [|reflexivity].
  apply re_track_inv in E as [t [w1 [w2 [ds [rest [_ [_ [_ [_ [Hd [_ ->]]]]]]]]]]].
  simpl. now rewrite (isdigit_lower _ Hd).
Qed.

(** X5. On a message that is ASCII, Track Selector and Caption Composer do
    not look at the case of the message: the lowercased message selects the
    same track and gives the same caption, whatever the record. *)
Theorem caption_ignores_case :
  forall (data : Release.t) (user_text : text),
    ascii_text user_text = true ->
    choose_track data (lower user_text) = choose_track data user_text
    /\ build_caption data (lower user_text) = build_caption data user_text.
Proof.
  intros data user_text _.
  assert (E : choose_track data (lower user_text) = choose_track data user_text).
  { unfold choose_track.
    now rewrite contains_bar_lower, hint_of_lower, by_index_lower, lower_idem. }
  split; [exact E|].
  unfold build_caption, caption_lines, head_lines. now rewrite E.
Qed.

(** The theorem at work: the hint [| MOONLIGHT AGAIN] and the hint in small
    letters select the same track. *)
Lemma caption_ignores_case_witness :
  choose_track headed_tracks (str "u | moonlight again") = Some (str "Moonlight Again")
  /\ build_caption headed_tracks (str "u | moonlight again")
     = build_caption headed_tracks (str "U | MOONLIGHT Again").
Proof.
  change (str "u | moonlight again") with (lower (str "U | MOONLIGHT Again")).
  split.
  - rewrite (proj1 (caption_ignores_case headed_tracks (str "U | MOONLIGHT Again") eq_refl)).
    reflexivity.
  - apply (proj2 (caption_ignores_case headed_tracks (str "U | MOONLIGHT Again") eq_refl)).
Defined.

Lemma hint_of_after_bar (pre post : text) :
  ~ In "|"%char pre -> hint_of (pre ++ "|"%char :: post) = strip post.
Proof. intros H. unfold hint_of. now rewrite split_once_first. Qed.

Lemma contains_bar_app (pre post : text) :
  contains (str "|") (pre ++ "|"%char :: post) = true.
Proof. apply contains_char, in_app_iff. right. now left. Qed.

(** X6. Of the message only what follows its first [|] counts: the text
    before it (the URL) changes neither the track nor the caption, and two
    messages without [|] give the same caption. *)
Theorem caption_after_first_bar :
  forall (data : Release.t),
    (forall pre pre' post,
        ~ In "|"%char pre -> ~ In "|"%char pre' ->
        choose_track data (pre ++ "|"%char :: post)
        = choose_track data (pre' ++ "|"%char :: post)
        /\ build_caption data (pre ++ "|"%char :: post)
           = build_caption data (pre' ++ "|"%char :: post))
    /\ (forall t t',
           contains (str "|") t = false -> contains (str "|") t' = false ->
           build_caption data t = build_caption data t').
Proof.
  intros data. split.
  - intros pre pre' post H H'.
    assert (E : choose_track data (pre ++ "|"%char :: post)
                = choose_track data (pre' ++ "|"%char :: post)).
    { unfold choose_track.
      now rewrite !contains_bar_app, !hint_of_after_bar by assumption. }
    split; [exact E|]. unfold build_caption, caption_lines, head_lines. now rewrite E.
  - intros t t' H H'. unfold build_caption, caption_lines, head_lines.
    now rewrite !choose_track_no_bar by assumption.
Qed.

(** The theorem at work on two URLs before the same hint. *)
Lemma caption_after_first_bar_witness :
  choose_track headed_tracks (str "u1 | moon | x")
  = choose_track headed_tracks (str "another | moon | x")
  /\ build_caption soul_data (str "one") = build_caption soul_data (str "two").
Proof.
  split.
  - apply (proj1 (caption_after_first_bar headed_tracks) (str "u1 ") (str "another ")
             (str " moon | x")).
    + intros [H|[H|[H|[]]]]; discriminate.
    + intros H. repeat (destruct H as [H|H]; [discriminate|]). destruct H.
  - apply (proj2 (caption_after_first_bar soul_data)); reflexivity.
Defined.

(* ================================================================== *)
(** ** Track Selector on the hint segment *)

Lemma tracks_of_entries (data : Release.t) : tracks_of data = track_entries data.
Proof.
  unfold tracks_of, track_entries. apply filter_ext. intros t. unfold typed_track.
  now destruct (Track.type_ t).
Qed.

Lemma first_with_title (h : text) (tracks : list Track.t) :
  first_with h tracks = first_title_with h tracks.
Proof. reflexivity. Qed.



Lemma index_hint_match (hint ds : text) :
  index_hint hint ds -> re_match true RE_TRACK hint = Some (MatchObj (Some ds)).
Proof.
  intros [t [w1 [w2 [rest [-> [Ht [H1 [H2 [Hd Hs]]]]]]]]].
  now apply re_track_grammar.
Qed.




(** Track Selector on a message with a [|]: the block of the index hint, then
    the search by name, on what follows the first [|], trimmed. *)
Lemma choose_track_after_bar (data : Release.t) (pre post : text) :
  ~ In "|"%char pre ->
  choose_track data (pre ++ "|"%char :: post) =
  match by_index (strip post) (tracks_of data) with
  | Some r => r
  | None => first_with (lower (strip post)) (tracks_of data)
  end.
Proof.
  intros H. unfold choose_track.
  rewrite contains_bar_app, hint_of_after_bar by exact H.
  rewrite tracks_of_entries. simpl negb. cbv iota.
  destruct (by_index (strip post) (track_entries data)); [reflexivity|].
  apply by_name_first.
Qed.








(** X7. With a [|] in the message and a hint segment that is ASCII, an index
    hint whose index is in range selects by position among the entries that
    are tracks, counted from 1: the result is the title of that entry, and
    when the entry has no title the result is nothing, without a search by
    name. *)
Theorem index_hint_in_range :
  forall (data : Release.t) (pre post ds : text) (i : nat) (trk : Track.t),
    ~ In "|"%char pre ->
    ascii_text (strip post) = true ->
    index_hint (strip post) ds ->
    int ds = Z.of_nat (S i) ->
    nth_error (tracks_of data) i = Some trk ->
    choose_track data (pre ++ "|"%char :: post) = Track.title trk.
Proof.
  intros data pre post ds i trk Hpre _ Hi Hn Ht.
  rewrite choose_track_after_bar by exact Hpre.
  unfold by_index. rewrite (index_hint_match Hi). cbn [group1 get_default]. rewrite Hn.
  replace (Z.of_nat (S i) - 1)%Z with (Z.of_nat i) by lia.
  assert (Hlt : i < length (tracks_of data)) by (apply nth_error_Some; congruence).
  destruct (Z.leb_spec 0 (Z.of_nat i)); [|lia].
  destruct (Z.ltb_spec (Z.of_nat i) (Z.of_nat (length (tracks_of data)))); [|lia].
  simpl. now rewrite Nat2Z.id, Ht.
Qed.

(** The theorem at work: the heading is not counted, [track:2] is the
    second track; and a track without a title gives nothing, though the
    title of another has the hint in it. *)
Lemma index_hint_in_range_witness :
  choose_track headed_tracks (str "u | Track: 02 please") = Some (str "Moonlight Again")
  /\ choose_track (with_tracks [Track.Make None None; titled "Track:1"]) (str "u|track:1")
     = None.
Proof.
  split.
  - apply (@index_hint_in_range headed_tracks (str "u ") (str " Track: 02 please")
             (str "02") 1 (titled "Moonlight Again")
             ltac:(intros [H|[H|[]]]; discriminate)
             eq_refl
             ltac:(exists (str "Track"), [], (str " "), (str " please"); repeat split));
      reflexivity.
  - apply (@index_hint_in_range (with_tracks [Track.Make None None; titled "Track:1"])
             (str "u") (str "track:1") (str "1") 0 (Track.Make None None)
             ltac:(intros [H|[]]; discriminate)
             eq_refl
             ltac:(exists (str "track"), [], [], []; repeat split));
      reflexivity.
Defined.

(* ================================================================== *)
(** ** Master URLs *)

Lemma entity_search_contains (w t : text) (m : match_obj) :
  search true
    (Cat (Lit (str "discogs.com/"))
       (Cat (Opt (Cat (StarLazy dot) (Lit (str "/"))))
          (Cat (Lit w) (Group (Plus digit))))) t = Some m ->
  contains (lower w) (lower t) = true.
Proof.
  intros H. apply search_some in H as [a [b [-> Hb]]].
  apply entity_match_inv in Hb as [h [mid [wd [ds [rest [-> [_ [_ [Hw _]]]]]]]]].
  rewrite !lower_app, Hw.
  rewrite (app_assoc (lower a)), (app_assoc (lower a ++ _)).
  apply contains_app_mid; exact [].
Qed.

Lemma host_fails_before (r : regex) (before a b host rest : text) :
  contains (str "discogs.com/") (lower before) = false ->
  before = a ++ b -> b <> [] ->
  lower host = str "discogs.com" ->
  re_match true (Cat (Lit (str "discogs.com/")) r) (b ++ host ++ "/"%char :: rest) = None.
Proof.
  intros Hc E Hb Hh. unfold re_match. rewrite exec_cat, exec_lit.
  destruct (lit true (str "discogs.com/") (b ++ host ++ "/"%char :: rest)) as [s1|] eqn:El;
    [exfalso | reflexivity].
  apply lit_startswith in El as [El _].
  rewrite !lower_app, Hh in El.
  change (lower (str "discogs.com/")) with (str "discogs.com/") in El.
  change (str "discogs.com" ++ lower ("/"%char :: rest))
    with (str "discogs.com/" ++ lower rest) in El.
  apply host_not_before in El; [|destruct b; [now elim Hb | discriminate]].
  apply contains_suffix with (a := lower a) in El.
  rewrite <- lower_app, <- E in El. congruence.
Qed.

Lemma master_tail (word ds after : text) (g : option text) :
  lower word = str "master" -> isdigit ds = true -> stops digit after = true ->
  exec true (Cat (Lit (str "master/")) (Group (Plus digit)))
    (word ++ "/"%char :: ds ++ after) g (fun _ g1 => Some (MatchObj g1))
  = Some (MatchObj (Some ds)).
Proof.
  intros Hw Hd Hs. apply isdigit_forallb in Hd as [Hne Hd].
  rewrite exec_cat, exec_lit.
  change (word ++ "/"%char :: ds ++ after) with (word ++ str "/" ++ ds ++ after).
  rewrite app_assoc, lit_lower.
  - now apply exec_group_plus.
  - rewrite lower_app, Hw. reflexivity.
Qed.

Lemma slash_master_hit (A : Type) (r : regex) (s : text) (g : option text)
    (k : text -> option text -> option A) :
  exec true (Lit (str "/")) s g
    (fun s1 g1 => exec true (Cat (Lit (str "master/")) r) s1 g1 k) <> None ->
  startswith (str "/master/") (lower s) = true.
Proof.
  rewrite exec_lit. destruct (lit true (str "/") s) as [s1|] eqn:E1; [|congruence].
  rewrite exec_cat, exec_lit.
  destruct (lit true (str "master/") s1) as [s2|] eqn:E2; [|congruence].
  intros _. apply lit_startswith in E1 as [E1 E1'], E2 as [E2 _].
  destruct s as [|c s]; [discriminate|].
  simpl in E1'. injection E1' as ->.
  change (lower (str "master/")) with (str "master/") in E2.
  change (startswith (lower (str "/")) (lower (c :: s1)))
    with (Ascii.eqb "/" (lower_char c) && true) in E1.
  rewrite andb_true_r in E1.
  change (startswith (str "/master/") (lower (c :: s1)))
    with (Ascii.eqb "/" (lower_char c) && startswith (str "master/") (lower s1)).
  now rewrite E1, E2.
Qed.

Lemma digit_no_m (d : ascii) : digit d = true -> Ascii.eqb "m" d = false.
Proof. by_cases_on d. Qed.

Lemma master_skip_digits (ds x : text) :
  forallb digit ds = true ->
  contains (str "/master/") (ds ++ x) = contains (str "/master/") x.
Proof.
  induction ds as [|d ds IH]; intros H; [reflexivity|].
  simpl in H. apply andb_true_iff in H as [H1 H2].
  cbn [app contains]. rewrite (IH H2).
  change (startswith (str "/master/") (d :: ds ++ x))
    with (Ascii.eqb "/" d && startswith (str "master/") (ds ++ x)).
  now rewrite (digit_no_slash _ H1).
Qed.

Lemma master_id_free (word ds after : text) :
  lower word = str "master" -> isdigit ds = true ->
  contains (str "/master/") (lower after) = false ->
  contains (str "/master/") (lower (word ++ "/"%char :: ds ++ after)) = false.
Proof.
  intros Hw Hd Ha. apply isdigit_forallb in Hd as [Hne Hd].
  change (word ++ "/"%char :: ds ++ after) with (word ++ str "/" ++ ds ++ after).
  rewrite !lower_app, Hw, (lower_digits _ Hd).
  change (lower (str "/")) with (str "/").
  assert (E : contains (str "/master/") (ds ++ lower after) = false)
    by now rewrite master_skip_digits.
  destruct ds as [|d ds]; [now elim Hne|].
  simpl in Hd. apply andb_true_iff in Hd as [Hd1 _].
  unfold str at 2 3. cbn [list_ascii_of_string app contains].
  cbn [app contains] in E. rewrite E.
  change (startswith (str "/master/") ("/"%char :: d :: ds ++ lower after))
    with (Ascii.eqb "m" d && startswith (str "aster/") (ds ++ lower after)).
  rewrite (digit_no_m _ Hd1). reflexivity.
Qed.

Lemma lazy_master_path (A : Type) (q rest : text) (k : text -> option A) (m : A) :
  forallb dot q = true ->
  contains (str "/master/") (lower (q ++ str "/")) = false ->
  (forall s, k s <> None -> startswith (str "/master/") (lower s) = true) ->
  k ("/"%char :: rest) = Some m ->
  lazy dot (q ++ "/"%char :: rest) k = Some m.
Proof.
  intros Hq Hc Hk Hm. rewrite lazy_skip; [now apply lazy_here | exact Hq |].
  intros a b E Hb. destruct (k (b ++ "/"%char :: rest)) as [m'|] eqn:Ek; [|reflexivity].
  exfalso. assert (H : startswith (str "/master/") (lower (b ++ "/"%char :: rest)) = true)
    by (apply Hk; congruence).
  rewrite lower_app in H.
  destruct (le_lt_dec 7 (length b)) as [Hl|Hl].
  - change (lower b ++ lower ("/"%char :: rest))
      with (lower b ++ str "/" ++ lower rest) in H.
    rewrite app_assoc in H. apply startswith_app_long in H.
    + apply contains_suffix with (a := lower a) in H.
      rewrite E, !lower_app, <- app_assoc in Hc.
      change (lower (str "/")) with (str "/") in Hc. congruence.
    + rewrite length_app. unfold lower. rewrite length_map. simpl. lia.
  - apply startswith_app_nth in H.
    + unfold lower in H. rewrite length_map in H.
      destruct b as [|c0 b]; [now elim Hb|]. simpl length in *.
      remember (length b) as j eqn:Ej. clear Ej.
      do 6 (destruct j as [|j]; [discriminate|]). lia.
    + unfold lower. rewrite length_map. simpl. lia.
Qed.

Lemma lazy_master_no_path (A : Type) (rest : text) (k : text -> option A) :
  contains (str "/master/") (lower rest) = false ->
  (forall s, k s <> None -> startswith (str "/master/") (lower s) = true) ->
  lazy dot rest k = None.
Proof.
  intros Hc Hk. apply lazy_none. intros a b E.
  destruct (k b) as [m|] eqn:Ek; [exfalso|reflexivity].
  assert (H : startswith (str "/master/") (lower b) = true) by (apply Hk; congruence).
  apply contains_suffix with (a := lower a) in H.
  rewrite <- lower_app, <- E in H. congruence.
Qed.

Lemma master_at_host (host path word ds after : text) :
  lower host = str "discogs.com" ->
  path_ok path = true ->
  contains (str "/master/") (lower path) = false ->
  lower word = str "master" ->
  isdigit ds = true ->
  stops digit after = true ->
  contains (str "/master/") (lower after) = false ->
  re_match true RE_MASTER (host ++ "/"%char :: path ++ word ++ "/"%char :: ds ++ after)
  = Some (MatchObj (Some ds)).
Proof.
  intros Hh Hp Hpc Hw Hd Hs Ha. unfold re_match, RE_MASTER.
  rewrite exec_cat, exec_lit.
  change (host ++ "/"%char :: path ++ word ++ "/"%char :: ds ++ after)
    with (host ++ str "/" ++ path ++ word ++ "/"%char :: ds ++ after).
  rewrite app_assoc, lit_lower by (rewrite lower_app, Hh; reflexivity).
  rewrite exec_cat, exec_opt, exec_cat, exec_star_lazy.
  assert (Hk : forall s,
             exec true (Lit (str "/")) s None
               (fun s1 g1 =>
                  exec true (Cat (Lit (str "master/")) (Group (Plus digit))) s1 g1
                    (fun _ g => Some (MatchObj g))) <> None ->
             startswith (str "/master/") (lower s) = true)
    by (intros s; apply slash_master_hit).
  destruct (path_ok_cases _ Hp) as [->|[q [-> Hq]]].
  - cbn [app]. rewrite lazy_master_no_path.
    + now apply master_tail.
    + now apply master_id_free.
    + exact Hk.
  - rewrite <- app_assoc. cbn [str list_ascii_of_string app].
    erewrite lazy_master_path; [reflexivity | exact Hq | exact Hpc | exact Hk |].
    rewrite exec_lit. change (lit true (str "/") ("/"%char :: ?x)) with (Some x).
    now apply master_tail.
Qed.

(** X8. On a well formed master URL that is ASCII (the host name in any
    case, a path of any segments, the word [master] in any case, the id, and
    [release/] nowhere in the text) URL Identifier returns "master" and the
    id of the URL. *)
Theorem extract_id_master_url :
  forall u : release_url,
    ascii_text (url_text u) = true ->
    well_formed_master u = true ->
    extract_id (url_text u) = (Some (str "master"), Some (url_id u)).
Proof.
  intros u _ H. unfold well_formed_master in H.
  repeat (apply andb_true_iff in H as [H ?]).
  repeat match goal with
         | X : negb _ = true |- _ => apply negb_true_iff in X
         | X : text_eqb _ _ = true |- _ => apply text_eqb_eq in X
         end.
  unfold extract_id.
  destruct (search true RE_RELEASE (url_text u)) as [m|] eqn:E.
  - apply entity_search_contains in E.
    change (lower (str "release/")) with (str "release/") in E. congruence.
  - unfold url_text. rewrite search_skip.
    + rewrite (@search_here true RE_MASTER _ (MatchObj (Some (url_id u))));
        [reflexivity|]. now apply master_at_host.
    + intros a b Eb Hb. unfold RE_MASTER.
      now apply host_fails_before with (before := url_before u) (a := a).
Qed.

(** The theorem at work on a master URL. *)
Lemma extract_id_master_url_witness :
  extract_id (url_text master_url) = (Some (str "master"), Some (str "96559")).
Proof. apply extract_id_master_url; reflexivity. Defined.

(* ================================================================== *)
(** ** The shape of the tags *)

Lemma alnum_not_hash (c : ascii) : is_alnum c = true -> c <> "#"%char /\ c <> " "%char.
Proof. by_cases_on c; split; discriminate. Qed.

Lemma count_filter_alnum (x : text) (c : ascii) :
  is_alnum c = false -> count_occ ascii_dec (filter is_alnum x) c = 0.
Proof.
  intros Hc. apply count_occ_not_In. intros H. apply filter_In in H as [_ H]. congruence.
Qed.

Lemma count_tags (l : list text) :
  count_occ ascii_dec (join (str " ") (map tag_of l)) "#"%char = length l
  /\ count_occ ascii_dec (join (str " ") (map tag_of l)) " "%char = pred (length l).
Proof.
  induction l as [|x l [IH1 IH2]]; [now split|].
  assert (T1 : count_occ ascii_dec (tag_of x) "#"%char = 1).
  { unfold tag_of. simpl. now rewrite count_filter_alnum. }
  assert (T2 : count_occ ascii_dec (tag_of x) " "%char = 0).
  { unfold tag_of. simpl. now rewrite count_filter_alnum. }
  cbn [map join]. destruct l as [|y l].
  - simpl map. cbv iota. now rewrite T1, T2.
  - change (map tag_of (y :: l)) with (tag_of y :: map tag_of l) in *.
    cbv iota. rewrite !count_occ_app, T1, T2, IH1, IH2. simpl. split; reflexivity.
Qed.

Lemma In_join (sep : text) (l : list text) (c : ascii) :
  In c (join sep l) -> In c sep \/ exists x, In x l /\ In c x.
Proof.
  induction l as [|x l IH]; [intros []|].
  cbn [join]. destruct l as [|y l].
  - intros H. right. exists x. split; [now left | assumption].
  - rewrite !in_app_iff. intros [H|[H|H]].
    + right. exists x. split; [now left | assumption].
    + now left.
    + destruct (IH H) as [H'|[z [Hz Hc]]]; [now left|].
      right. exists z. split; [now right | assumption].
Qed.

Lemma alnum_not_space (c : ascii) : is_alnum c = true -> is_space c = false.
Proof. by_cases_on c. Qed.

Lemma lstrip_all_spaces (x : text) : lstrip x = [] -> forallb is_space x = true.
Proof.
  induction x as [|c x IH]; simpl; [reflexivity|].
  destruct (is_space c); [exact IH | discriminate].
Qed.

Lemma strip_all_spaces (x : text) : strip x = [] -> forallb is_space x = true.
Proof.
  unfold strip, rstrip. intros H.
  apply (f_equal (@rev ascii)) in H. rewrite rev_involutive in H. simpl in H.
  apply lstrip_all_spaces in H. rewrite forallb_forall in H.
  destruct (lstrip x) as [|c r] eqn:E; [now apply lstrip_all_spaces|].
  exfalso. revert E. clear -H. induction x as [|d x IH]; simpl; [discriminate|].
  destruct (is_space d) eqn:Ed; [exact IH|].
  intros E. injection E as -> ->.
  assert (Hc : is_space c = true) by (apply H, in_rev; rewrite rev_involutive; now left).
  congruence.
Qed.

(** An entry with a letter or a digit in it is not blank. *)
Lemma alnum_not_blank (x : text) : existsb is_alnum x = true -> blank x = false.
Proof.
  intros H. unfold blank. destruct (strip x) eqn:E; [|reflexivity].
  apply strip_all_spaces in E. apply existsb_exists in H as [c [Hc Ha]].
  rewrite forallb_forall in E. apply E in Hc. apply alnum_not_space in Ha. congruence.
Qed.

Lemma filter_nil_existsb (f : ascii -> bool) (x : text) :
  filter f x = [] <-> existsb f x = false.
Proof.
  induction x as [|c x IH]; simpl; [tauto|].
  destruct (f c); simpl; [split; discriminate | exact IH].
Qed.

(** C6, as the code has it.  The hashtag string is made of tokens joined by
    one blank, one for every entry of the genres and styles that is kept: an
    entry that is ASCII is kept exactly when it is not blank once trimmed,
    and an entry with an ASCII letter or digit in it is always kept.  The
    token of an entry is [#] and then the ASCII letters and digits of the
    entry, in their order: every other character of the entry is removed,
    and no character but [#], the blank between two tokens, letters and
    digits is in the string.  The token is a bare [#] exactly when the entry
    has no ASCII letter and no digit. *)
Theorem hashtags_tokens :
  forall data : Release.t,
    (exists keep : text -> bool,
        hashtags data = join (str " ") (map tag_of (filter keep (entries_of data)))
        /\ (forall x, ascii_text x = true -> keep x = negb (blank x))
        /\ (forall x, existsb is_alnum x = true -> keep x = true))
    /\ (forall c, In c (hashtags data) ->
                  c = "#"%char \/ c = " "%char \/ is_alnum c = true)
    /\ (forall x, exists run,
           tag_of x = "#"%char :: run
           /\ run = filter is_alnum x
           /\ forallb is_alnum run = true
           /\ (forall c, In c run -> c <> "#"%char /\ c <> " "%char)
           /\ (run = [] <-> existsb is_alnum x = false)).
Proof.
  intros data. split; [|split].
  - exists (fun x => negb (blank x)). split; [apply hashtags_tags_of|]. split.
    + reflexivity.
    + intros x H. now rewrite alnum_not_blank.
  - rewrite hashtags_tags_of. unfold tags_of.
    intros c H. apply In_join in H as [[<-|[]]|[x [Hx Hc]]]; [tauto|].
    apply in_map_iff in Hx as [e [<- _]]. unfold tag_of in Hc. simpl in Hc.
    destruct Hc as [<-|Hc]; [tauto|]. apply filter_In in Hc as [_ Hc]. tauto.
  - intros x. exists (filter is_alnum x). split; [reflexivity|]. split; [reflexivity|].
    split; [|split].
    + apply forallb_forall. intros c Hc. now apply filter_In in Hc as [_ Hc].
    + intros c Hc. apply filter_In in Hc as [_ Hc]. now apply alnum_not_hash.
    + apply filter_nil_existsb.
Qed.

(** The theorem at work: a genre with a letter that is not ASCII, a genre
    without a letter, a blank genre and a style. *)
Lemma hashtags_tokens_witness :
  hashtags forro_data = str "#Forr # #RB".
Proof.
  destruct (proj1 (hashtags_tokens forro_data)) as [keep [E [Ha Hb]]].
  rewrite E. unfold forro_data, entries_of, with_genres, listed.
  cbn [Release.genres Release.styles app filter].
  rewrite (Hb (str "Forró") eq_refl), (Ha (str "!!!") eq_refl),
    (Ha (str " ") eq_refl), (Hb (str "R&B") eq_refl).
  reflexivity.
Defined.

(** X9. On genres and styles that are ASCII, the tags are made of [#], the
    blank and letters and digits only; there is one [#] for every entry of
    the genres and styles that is not blank, and one blank less. *)
Theorem hashtags_shape :
  forall data : Release.t,
    ascii_texts (entries_of data) = true ->
    (forall c, In c (hashtags data) ->
               c = "#"%char \/ c = " "%char \/ is_alnum c = true)
    /\ count_occ ascii_dec (hashtags data) "#"%char
       = length (filter (fun x => negb (blank x)) (entries_of data))
    /\ count_occ ascii_dec (hashtags data) " "%char
       = pred (length (filter (fun x => negb (blank x)) (entries_of data))).
Proof.
  intros data _. rewrite hashtags_tags_of. unfold tags_of.
  split; [|apply count_tags].
  intros c H. apply In_join in H as [[<-|[]]|[x [Hx Hc]]]; [tauto|].
  apply in_map_iff in Hx as [e [<- _]]. unfold tag_of in Hc. simpl in Hc.
  destruct Hc as [<-|Hc]; [tauto|]. apply filter_In in Hc as [_ Hc]. tauto.
Qed.

(** The theorem at work: four entries, one of them blank and one without a
    letter, give three [#] and two blanks. *)
Lemma hashtags_shape_witness :
  count_occ ascii_dec
    (hashtags (with_genres [str "Hip Hop"; str " "] [str "!!!"; str "Lo-Fi"])) "#"%char = 3
  /\ count_occ ascii_dec
       (hashtags (with_genres [str "Hip Hop"; str " "] [str "!!!"; str "Lo-Fi"])) " "%char = 2.
Proof.
  exact (proj2 (hashtags_shape
                  (with_genres [str "Hip Hop"; str " "] [str "!!!"; str "Lo-Fi"])
                  eq_refl)).
Defined.





(* ================================================================== *)
(** ** The lines of the caption *)

(** The lines in the order they are appended. *)
Lemma caption_lines_parts (data : Release.t) (user_text : text) :
  caption_lines data user_text =
  (ARTIST ++ artist_of data)
    :: track_lines data user_text
    ++ (ALBUM ++ or_text (Release.title data) [])
    :: credit_lines PRODUCER (extract_roles (Release.extraartists data) producer_keywords)
    ++ credit_lines ENGINEER (extract_roles (Release.extraartists data) engineer_keywords)
    ++ date_lines (strip (py_str (year_or_empty (Release.year data))))
    ++ tags_lines data.
Proof.
  unfold caption_lines, head_lines, track_lines, tags_lines, artist_of,
    producer_keywords, engineer_keywords.
  destruct (Release.artists_sort data) as [a|]; [destruct (truthy a)|];
    (destruct (choose_track data user_text) as [t|]; [destruct (truthy t)|]);
    destruct (extract_roles (Release.extraartists data) [str "producer"]);
    destruct (extract_roles (Release.extraartists data) _);
    destruct (truthy (hashtags data));
    cbn [app credit_lines]; rewrite <- ?app_assoc; cbn [app];
    rewrite ?app_nil_r; reflexivity.
Qed.

Lemma caption_lines_In (data : Release.t) (user_text l : text) :
  In l (caption_lines data user_text) <->
  l = ARTIST ++ artist_of data
  \/ In l (track_lines data user_text)
  \/ l = ALBUM ++ or_text (Release.title data) []
  \/ In l (credit_lines PRODUCER (extract_roles (Release.extraartists data) producer_keywords))
  \/ In l (credit_lines ENGINEER (extract_roles (Release.extraartists data) engineer_keywords))
  \/ In l (date_lines (strip (py_str (year_or_empty (Release.year data)))))
  \/ In l (tags_lines data).
Proof.
  rewrite caption_lines_parts. cbn [In]. rewrite in_app_iff. cbn [In].
  rewrite !in_app_iff. intuition congruence.
Qed.

Lemma track_lines_In (data : Release.t) (user_text l : text) :
  In l (track_lines data user_text) -> exists x, l = TRACK ++ x.
Proof.
  unfold track_lines. destruct (choose_track data user_text) as [t|]; [|intros []].
  destruct (truthy t); [|intros []]. intros [<-|[]]. now exists t.
Qed.

Lemma credit_lines_In (label : text) (names : list text) (l : text) :
  In l (credit_lines label names) -> exists x, l = label ++ x.
Proof. destruct names; [intros []|]. intros [<-|[]]. eexists; reflexivity. Qed.

Lemma date_lines_In (y l : text) : In l (date_lines y) -> exists x, l = DATE ++ x.
Proof.
  rewrite date_lines_decade. destruct y; [intros []|]. intros [<-|[]].
  eexists; reflexivity.
Qed.

Lemma tags_lines_In (data : Release.t) (l : text) :
  In l (tags_lines data) -> exists x, l = "#"%char :: x.
Proof.
  unfold tags_lines. destruct (hashtags_head data) as [E|[r E]]; rewrite E;
    [intros [] | intros [<-|[]]; now exists r].
Qed.

(** A line with one of the labels is the line of that label. *)
Ltac other_label H :=
  match type of H with
  | In _ (track_lines _ _) => apply track_lines_In in H as [? ->]
  | In _ (credit_lines _ _) => apply credit_lines_In in H as [? ->]
  | In _ (date_lines _) => apply date_lines_In in H as [? ->]
  | In _ (tags_lines _) => apply tags_lines_In in H as [? ->]
  | _ = _ => rewrite H
  end.

Lemma extract_roles_names (extra : option (list Credit.t)) (keywords : list text) :
  extract_roles extra keywords =
  first_occurrences [] (map credit_name (filter (role_matches keywords) (or_list extra))).
Proof.
  destruct extra as [[|p rest]|]; try reflexivity.
  unfold extract_roles, fromkeys. rewrite roles_loop_app.
  rewrite (@fromkeys_from_first _ [] []); [reflexivity | tauto].
Qed.

Lemma extract_roles_nonempty (extra : option (list Credit.t)) (keywords : list text) :
  extract_roles extra keywords <> [] <->
  exists e k, In e (or_list extra) /\ In k keywords
              /\ substring k (lower (or_text (Credit.role e) [])).
Proof.
  rewrite extract_roles_names. split.
  - intros H.
    destruct (first_occurrences [] _) as [|n l] eqn:E; [now elim H|].
    assert (Hn : In n (n :: l)) by now left. rewrite <- E in Hn.
    apply first_occurrences_In in Hn as [Hn _].
    apply in_map_iff in Hn as [e [_ He]]. apply filter_In in He as [He Hm].
    unfold role_matches in Hm. apply existsb_exists in Hm as [k [Hk Hc]].
    exists e, k. repeat split; try assumption. now apply contains_spec.
  - intros [e [k [He [Hk Hs]]]] H.
    assert (Hin : In (credit_name e)
                    (first_occurrences []
                       (map credit_name (filter (role_matches keywords) (or_list extra))))).
    { apply first_occurrences_In. split; [|tauto]. apply in_map, filter_In.
      split; [assumption|]. unfold role_matches. apply existsb_exists.
      exists k. split; [assumption | now apply contains_spec]. }
    rewrite H in Hin. destruct Hin.
Qed.

(** X11. The caption begins with the line of the artist and has the line of
    the album; it has at least these two lines, at most seven, and is never
    empty. *)
Theorem caption_shape :
  forall (data : Release.t) (user_text : text),
    (exists rest, caption_lines data user_text = (ARTIST ++ artist_of data) :: rest)
    /\ In (ALBUM ++ or_text (Release.title data) []) (caption_lines data user_text)
    /\ 2 <= length (caption_lines data user_text) <= 7
    /\ startswith ARTIST (build_caption data user_text) = true.
Proof.
  intros data user_text. split; [|split; [|split]].
  - rewrite caption_lines_parts. eexists; reflexivity.
  - apply caption_lines_In. tauto.
  - rewrite caption_lines_parts. cbn [length]. rewrite length_app. cbn [length].
    rewrite !length_app.
    assert (length (track_lines data user_text) <= 1).
    { unfold track_lines. destruct (choose_track data user_text) as [t|]; [|simpl; lia].
      destruct (truthy t); simpl; lia. }
    assert (forall lbl ns, length (credit_lines lbl ns) <= 1)
      by (intros lbl [|n ns]; simpl; lia).
    assert (length (date_lines (strip (py_str (year_or_empty (Release.year data))))) <= 1).
    { rewrite date_lines_decade. destruct (strip _); simpl; lia. }
    assert (length (tags_lines data) <= 1).
    { unfold tags_lines. destruct (truthy (hashtags data)); simpl; lia. }
    pose proof (H0 PRODUCER (extract_roles (Release.extraartists data) producer_keywords)).
    pose proof (H0 ENGINEER (extract_roles (Release.extraartists data) engineer_keywords)).
    lia.
  - unfold build_caption. rewrite caption_lines_parts. cbn [join].
    destruct (track_lines data user_text ++ _) eqn:E.
    + apply startswith_spec. now exists (artist_of data).
    + apply startswith_spec. eexists. rewrite <- app_assoc. reflexivity.
Qed.

(** X12. The caption has a producer line exactly when some credit has
    "producer" in its lowercased role, and an engineer line exactly when
    some credit has "engineer", "mix", "record", "master" or "sound" in it;
    the line is the label and the names Credit Extractor returns, joined by
    a comma and a blank. *)
Theorem credit_lines_emitted :
  forall (data : Release.t) (user_text : text),
    let producers := extract_roles (Release.extraartists data) producer_keywords in
    let engineers := extract_roles (Release.extraartists data) engineer_keywords in
    (forall l, In l (caption_lines data user_text) /\ startswith PRODUCER l = true <->
               producers <> [] /\ l = PRODUCER ++ join (str ", ") producers)
    /\ (forall l, In l (caption_lines data user_text) /\ startswith ENGINEER l = true <->
                  engineers <> [] /\ l = ENGINEER ++ join (str ", ") engineers)
    /\ (producers <> [] <->
        exists e, In e (or_list (Release.extraartists data))
                  /\ substring (str "producer") (lower (or_text (Credit.role e) [])))
    /\ (engineers <> [] <->
        exists e k, In e (or_list (Release.extraartists data))
                    /\ In k engineer_keywords
                    /\ substring k (lower (or_text (Credit.role e) []))).
Proof.
  intros data user_text producers engineers. split; [|split; [|split]].
  - intros l. rewrite caption_lines_In. fold producers engineers. split.
    + intros [[H|[H|[H|[H|[H|[H|H]]]]]] Hs];
        try (other_label H; discriminate Hs).
      * subst l. discriminate Hs.
      * subst l. discriminate Hs.
      * destruct producers; [destruct H|]. destruct H as [<-|[]].
        split; [discriminate | reflexivity].
    + intros [Hne ->]. split.
      * do 3 right. left. destruct producers; [now elim Hne | now left].
      * apply startswith_spec. eexists; reflexivity.
  - intros l. rewrite caption_lines_In. fold producers engineers. split.
    + intros [[H|[H|[H|[H|[H|[H|H]]]]]] Hs];
        try (other_label H; discriminate Hs).
      * subst l. discriminate Hs.
      * subst l. discriminate Hs.
      * destruct engineers; [destruct H|]. destruct H as [<-|[]].
        split; [discriminate | reflexivity].
    + intros [Hne ->]. split.
      * do 4 right. left. destruct engineers; [now elim Hne | now left].
      * apply startswith_spec. eexists; reflexivity.
  - unfold producers. rewrite extract_roles_nonempty. split.
    + intros [e [k [He [[<-|[]] Hs]]]]. now exists e.
    + intros [e [He Hs]]. exists e, (str "producer"). repeat split; auto. now left.
  - apply extract_roles_nonempty.
Qed.

(** The theorem at work on a record with a producer and a mastering credit. *)
Lemma credit_lines_emitted_witness :
  In (PRODUCER ++ str "Quincy") (caption_lines
        (with_credits [credited "Producer" "Quincy"; credited "Mastered By" "Bernie"]) [])
  /\ startswith PRODUCER (PRODUCER ++ str "Quincy") = true.
Proof.
  apply (proj1 (credit_lines_emitted
                  (with_credits [credited "Producer" "Quincy"; credited "Mastered By" "Bernie"])
                  []) (PRODUCER ++ str "Quincy")).
  split; [discriminate | reflexivity].
Defined.

(** X13. The caption has a track line exactly when Track Selector returns a
    title that is not empty; the line is the label and that title. *)
Theorem track_line_emitted :
  forall (data : Release.t) (user_text l : text),
    In l (caption_lines data user_text) /\ startswith TRACK l = true <->
    exists t, choose_track data user_text = Some t /\ t <> [] /\ l = TRACK ++ t.
Proof.
  intros data user_text l. rewrite caption_lines_In. split.
  - intros [[H|[H|[H|[H|[H|[H|H]]]]]] Hs];
      try (other_label H; discriminate Hs).
    + subst l. discriminate Hs.
    + unfold track_lines in H. destruct (choose_track data user_text) as [t|]; [|destruct H].
      destruct t as [|c t]; [destruct H|]. destruct H as [<-|[]].
      exists (c :: t). repeat split. discriminate.
    + subst l. discriminate Hs.
  - intros [t [E [Hne ->]]]. split.
    + right. left. unfold track_lines. rewrite E.
      destruct t; [now elim Hne | now left].
    + apply startswith_spec. eexists; reflexivity.
Qed.

(** The theorem at work on a listing and a hint by name. *)
Lemma track_line_emitted_witness :
  In (TRACK ++ str "Blue Moonlight") (caption_lines headed_tracks (str "u | moon"))
  /\ startswith TRACK (TRACK ++ str "Blue Moonlight") = true.
Proof.
  apply (proj2 (track_line_emitted headed_tracks (str "u | moon")
                  (TRACK ++ str "Blue Moonlight"))).
  exists (str "Blue Moonlight"). repeat split. discriminate.
Defined.

(* ================================================================== *)
(** ** Years that are numbers *)

Lemma uint_no_space (d : Decimal.uint) :
  forallb (fun c => negb (is_space c)) (str (NilEmpty.string_of_uint d)) = true.
Proof. induction d; simpl; auto. Qed.

Lemma str_of_int_no_space (n : Z) :
  forallb (fun c => negb (is_space c)) (str_of_int n) = true.
Proof.
  unfold str_of_int. destruct (Z.to_int n) as [d|d]; simpl.
  - destruct d; try reflexivity; apply (uint_no_space (_ d)).
  - destruct d; try reflexivity; apply (uint_no_space (_ d)).
Qed.

Lemma lstrip_no_space (s : text) :
  forallb (fun c => negb (is_space c)) s = true -> lstrip s = s.
Proof.
  destruct s as [|c s]; [reflexivity|]. simpl. intros H.
  apply andb_true_iff in H as [H _]. now destruct (is_space c).
Qed.

Lemma strip_no_space (s : text) :
  forallb (fun c => negb (is_space c)) s = true -> strip s = s.
Proof.
  intros H. unfold strip, rstrip. rewrite (lstrip_no_space _ H).
  rewrite lstrip_no_space; [apply rev_involutive|].
  apply forallb_forall. intros c Hc. apply in_rev in Hc.
  revert c Hc. now apply forallb_forall.
Qed.

Lemma check_range (P : Z -> bool) (lo len : Z) :
  forallb P (map (fun i => lo + Z.of_nat i)%Z (seq 0 (Z.to_nat len))) = true ->
  forall n, (lo <= n < lo + len)%Z -> P n = true.
Proof.
  intros H n Hn. rewrite forallb_forall in H. apply H.
  apply in_map_iff. exists (Z.to_nat (n - lo)). split; [lia|].
  apply in_seq. lia.
Qed.

Lemma decade_of_four_digits (n : Z) :
  (1000 <= n <= 9999)%Z ->
  decade_tag (str_of_int n) = str " #" ++ [digit_char ((n / 10) mod 10)] ++ str "0s".
Proof.
  intros Hn. apply text_eqb_eq.
  apply (@check_range
           (fun n => text_eqb (decade_tag (str_of_int n))
                       (str " #" ++ [digit_char ((n / 10) mod 10)] ++ str "0s"))
           1000 9000); [vm_compute; reflexivity | lia].
Qed.

Lemma decade_of_small (n : Z) : (n < 1000)%Z -> decade_tag (str_of_int n) = [].
Proof.
  intros Hn. destruct (Z_lt_le_dec n 0) as [Hneg|Hpos].
  - destruct n as [|p|p]; try lia. unfold str_of_int. simpl Z.to_int.
    cbn [NilZero.string_of_int str list_ascii_of_string].
    destruct (list_ascii_of_string _) as [|d2 [|d3 [|d4 [|d5 s]]]]; reflexivity.
  - apply text_eqb_eq.
    apply (@check_range (fun n => text_eqb (decade_tag (str_of_int n)) []) 0 1000);
      [vm_compute; reflexivity | lia].
Qed.

(** X14. A year that is a number other than 0 gives the date line with the
    number as Python writes it.  From 1000 to 9999 the decade tag is built
    from the tens of the year: [ #], the digit of (year / 10) mod 10 and
    [0s]; below 1000, negative years too, there is no decade tag. *)
Theorem year_number_date_line :
  forall (data : Release.t) (user_text : text) (n : Z),
    Release.year data = Some (YearInt n) -> n <> 0%Z ->
    In (DATE ++ str_of_int n ++ decade_tag (str_of_int n)) (caption_lines data user_text)
    /\ ((1000 <= n <= 9999)%Z ->
        decade_tag (str_of_int n) = str " #" ++ [digit_char ((n / 10) mod 10)] ++ str "0s")
    /\ ((n < 1000)%Z -> decade_tag (str_of_int n) = []).
Proof.
  intros data user_text n Hy Hn.
  split; [|split; [apply decade_of_four_digits | apply decade_of_small]].
  apply (proj2 (caption_date_lines data user_text _)).
  rewrite Hy. cbn [year_or_empty].
  destruct (Z.eqb_spec n 0) as [E|_]; [contradiction|].
  cbn [py_str]. rewrite (strip_no_space _ (str_of_int_no_space n)).
  rewrite date_lines_decade.
  destruct (str_of_int n) eqn:E; [|now left].
  exfalso. unfold str_of_int in E.
  destruct (Z.to_int n) as [[]|[]]; discriminate.
Qed.

(** The theorem at work on the years 1987 and -44. *)
Lemma year_number_date_line_witness :
  In (DATE ++ str "1987 #80s") (caption_lines (with_year (YearInt 1987)) [])
  /\ In (DATE ++ str "-44") (caption_lines (with_year (YearInt (-44))) []).
Proof.
  split.
  - apply (proj1 (@year_number_date_line (with_year (YearInt 1987)) [] 1987 eq_refl
                    ltac:(discriminate))).
  - apply (proj1 (@year_number_date_line (with_year (YearInt (-44))) [] (-44) eq_refl
                    ltac:(discriminate))).
Defined.

(* ================================================================== *)
(** ** More on Credit Extractor *)

Lemma upper_lower_char (c : ascii) : is_upper (lower_char c) = false.
Proof. by_cases_on c. Qed.

Lemma lower_no_upper (s : text) (c : ascii) : In c (lower s) -> is_upper c = false.
Proof.
  unfold lower. intros H. apply in_map_iff in H as [x [<- _]]. apply upper_lower_char.
Qed.

(** X15. A keyword with a capital letter in it matches no role, since the
    role is lowercased and the keyword is not: with only such keywords
    Credit Extractor returns nothing. *)
Theorem extract_roles_capital_keyword :
  forall (extra : option (list Credit.t)) (keywords : list text),
    (forall k, In k keywords -> existsb is_upper k = true) ->
    extract_roles extra keywords = [].
Proof.
  intros extra keywords H.
  destruct (extract_roles extra keywords) as [|n l] eqn:E; [reflexivity|].
  assert (Hne : extract_roles extra keywords <> []) by (rewrite E; discriminate).
  apply extract_roles_nonempty in Hne as [e [k [_ [Hk [a [b Hs]]]]]].
  apply H in Hk. apply existsb_exists in Hk as [c [Hc Hu]].
  assert (Hin : In c (lower (or_text (Credit.role e) []))).
  { rewrite Hs, !in_app_iff. tauto. }
  apply lower_no_upper in Hin. congruence.
Qed.

(** The theorem at work: "Producer" as a keyword finds no producer. *)
Lemma extract_roles_capital_keyword_witness :
  extract_roles (Some [credited "Producer" "Quincy"]) [str "Producer"] = [].
Proof.
  apply extract_roles_capital_keyword.
  intros k [<-|[]]. reflexivity.
Defined.

Lemma filter_map_roles (keywords : list text) (l l' : list Credit.t) :
  Forall2 (fun e e' =>
             Credit.name e = Credit.name e'
             /\ lower (or_text (Credit.role e) []) = lower (or_text (Credit.role e') []))
    l l' ->
  map credit_name (filter (role_matches keywords) l)
  = map credit_name (filter (role_matches keywords) l').
Proof.
  induction 1 as [|e e' l l' [Hn Hr] _ IH]; [reflexivity|].
  cbn [filter].
  assert (Em : role_matches keywords e = role_matches keywords e')
    by (unfold role_matches; now rewrite Hr).
  rewrite Em. destruct (role_matches keywords e'); [|exact IH].
  cbn [map]. rewrite IH. f_equal. unfold credit_name. now rewrite Hn.
Qed.

(** X16. Credit Extractor does not look at the case of the roles: two lists
    of credits with the same names and with roles that are equal once
    lowercased give the same names. *)
Theorem extract_roles_role_case :
  forall (l l' : list Credit.t) (keywords : list text),
    Forall2 (fun e e' =>
               Credit.name e = Credit.name e'
               /\ lower (or_text (Credit.role e) []) = lower (or_text (Credit.role e') []))
      l l' ->
    extract_roles (Some l) keywords = extract_roles (Some l') keywords.
Proof.
  intros l l' keywords H. rewrite !extract_roles_names. cbn [or_list].
  now rewrite (filter_map_roles keywords H).
Qed.

(** The theorem at work on "PRODUCER" and "Producer". *)
Lemma extract_roles_role_case_witness :
  extract_roles (Some [credited "PRODUCER" "Quincy"]) [str "producer"]
  = extract_roles (Some [credited "Producer" "Quincy"]) [str "producer"].
Proof.
  apply extract_roles_role_case. constructor; [|constructor]. split; reflexivity.
Defined.

Lemma first_occurrences_length (l before : list text) :
  length (first_occurrences before l) <= length l.
Proof.
  revert before; induction l as [|x l IH]; intros before; simpl; [lia|].
  destruct (in_dec (list_eq_dec ascii_dec) x before); simpl;
    specialize (IH (before ++ [x])); lia.
Qed.

(** X17. Credit Extractor returns at most as many names as there are
    credits, and with more keywords it returns at least the names it
    returned. *)
Theorem extract_roles_bounds :
  forall (extra : option (list Credit.t)) (keywords more : list text),
    length (extract_roles extra keywords) <= length (or_list extra)
    /\ (forall n, In n (extract_roles extra keywords) ->
                  In n (extract_roles extra (keywords ++ more))).
Proof.
  intros extra keywords more. rewrite !extract_roles_names. split.
  - eapply Nat.le_trans; [apply first_occurrences_length|].
    rewrite length_map. apply filter_length_le.
  - intros n. rewrite !first_occurrences_In, !in_map_iff.
    intros [[e [He Hin]] _]. split; [|tauto]. exists e. split; [assumption|].
    apply filter_In in Hin as [Hin Hm]. apply filter_In. split; [assumption|].
    unfold role_matches in *. rewrite existsb_app, Hm. reflexivity.
Qed.

(** The theorem at work: the producer is still found with more keywords. *)
Lemma extract_roles_bounds_witness :
  In (str "Quincy")
    (extract_roles (Some [credited "Producer" "Quincy"]) ([str "producer"] ++ [str "mix"])).
Proof.
  apply (proj2 (extract_roles_bounds (Some [credited "Producer" "Quincy"])
                  [str "producer"] [str "mix"])).
  vm_compute. auto.
Defined.

(* ================================================================== *)
(** ** Blanks around the hint *)

Lemma lstrip_app_spaces (w s : text) :
  forallb is_space w = true -> lstrip (w ++ s) = lstrip s.
Proof.
  induction w as [|c w IH]; [reflexivity|]. simpl. intros H.
  apply andb_true_iff in H as [H1 H2]. rewrite H1. now apply IH.
Qed.

Lemma rstrip_app_spaces (s w : text) :
  forallb is_space w = true -> rstrip (s ++ w) = rstrip s.
Proof.
  intros H. unfold rstrip. rewrite rev_app_distr, lstrip_app_spaces; [reflexivity|].
  apply forallb_forall. intros c Hc. apply in_rev in Hc.
  revert c Hc. now apply forallb_forall.
Qed.

Lemma lstrip_app (s w : text) :
  forallb is_space w = true ->
  lstrip (s ++ w) = match lstrip s with [] => [] | _ :: _ => lstrip s ++ w end.
Proof.
  intros H. induction s as [|c s IH]; simpl.
  - now rewrite lstrip_spaces.
  - destruct (is_space c); [exact IH | reflexivity].
Qed.

Lemma strip_around (w1 h w2 : text) :
  forallb is_space w1 = true -> forallb is_space w2 = true ->
  strip (w1 ++ h ++ w2) = strip h.
Proof.
  intros H1 H2. unfold strip. rewrite lstrip_app_spaces by exact H1.
  rewrite lstrip_app by exact H2.
  destruct (lstrip h) eqn:E; [reflexivity|]. now rewrite rstrip_app_spaces.
Qed.

(** X18. Blanks around the hint do not count: with any run of blanks before
    and after what follows the first [|], Track Selector returns what it
    returns without them. *)
Theorem choose_track_blanks :
  forall (data : Release.t) (pre w1 h w2 : text),
    ~ In "|"%char pre ->
    forallb is_space w1 = true -> forallb is_space w2 = true ->
    choose_track data (pre ++ "|"%char :: w1 ++ h ++ w2)
    = choose_track data ("|"%char :: h).
Proof.
  intros data pre w1 h w2 Hp H1 H2. unfold choose_track.
  assert (E1 := contains_bar_app [] h).
  assert (E2 := @hint_of_after_bar [] h (fun x => x)). cbn [app] in E1, E2.
  rewrite contains_bar_app, E1, E2.
  rewrite hint_of_after_bar by exact Hp.
  now rewrite strip_around.
Qed.

(** The theorem at work on a padded hint. *)
Lemma choose_track_blanks_witness :
  choose_track headed_tracks (str "u |   track:1  ")
  = choose_track headed_tracks (str "|track:1").
Proof.
  apply (@choose_track_blanks headed_tracks (str "u ") (str "   ") (str "track:1")
           (str "  ")); try reflexivity.
  intros [H|[H|[]]]; discriminate.
Defined.

(* ================================================================== *)
(** ** The fetches and the handler *)

(** One step of a run read backwards. *)
Ltac run_step H :=
  match type of H with
  | run (Ret _) _ _ => destruct H as [-> ->]
  | run (Raise _) _ _ => destruct H as [-> ->]
  | run (finish ?o) _ _ => destruct o as [[]|?]; cbn [finish] in H
  | run (HttpJson _ _) ?tr _ =>
      destruct tr as [|[? ?|? ?|? ?|? ? ?] ?]; cbn [run] in H; try contradiction;
      let E := fresh "E" in destruct H as [E H]; subst
  | run (HttpContent _ _) ?tr _ =>
      destruct tr as [|[? ?|? ?|? ?|? ? ?] ?]; cbn [run] in H; try contradiction;
      let E := fresh "E" in destruct H as [E H]; subst
  | run (ReplyText _ _) ?tr _ =>
      destruct tr as [|[? ?|? ?|? ?|? ? ?] ?]; cbn [run] in H; try contradiction;
      let E := fresh "E" in destruct H as [E H]; subst
  | run (ReplyPhoto _ _ _) ?tr _ =>
      destruct tr as [|[? ?|? ?|? ?|? ? ?] ?]; cbn [run] in H; try contradiction;
      let E1 := fresh "E" in let E2 := fresh "E" in destruct H as [E1 [E2 H]]; subst
  | run (match ?x with _ => _ end) _ _ => destruct x eqn:?
  end.

Ltac run_all H := repeat (progress (cbv beta iota in H) || run_step H).

Lemma main_release_of_cases (m : doc) :
  (main_release_of m = None
   /\ (main_release m = None \/ main_release m = Some 0%Z)
   /\ (main_release_id m = None \/ main_release_id m = Some 0%Z))
  \/ (exists rid,
        main_release_of m = Some rid /\ rid <> 0%Z
        /\ (main_release m = Some rid
            \/ ((main_release m = None \/ main_release m = Some 0%Z)
                /\ main_release_id m = Some rid))).
Proof.
  unfold main_release_of.
  destruct (main_release m) as [n|]; [destruct (Z.eqb_spec n 0) as [->|Hn]|].
  - destruct (main_release_id m) as [n'|]; [destruct (Z.eqb_spec n' 0) as [->|Hn']|].
    + left. repeat split; auto.
    + right. exists n'. repeat split; auto.
    + left. repeat split; auto.
  - right. exists n. repeat split; auto.
  - destruct (main_release_id m) as [n'|]; [destruct (Z.eqb_spec n' 0) as [->|Hn']|].
    + left. repeat split; auto.
    + right. exists n'. repeat split; auto.
    + left. repeat split; auto.
Qed.

(** X19. [get_master] asks for the master, and goes on to the main release
    only when the master names one: [main_release] when it is there and not
    0, else [main_release_id] when it is there and not 0.  Without such an
    id it returns [None] after the one request; an exception of either
    request is the exception of [get_master]. *)
Theorem get_master_runs :
  forall (master_id : text) (tr : list event) (res : outcome (option doc)),
    run (get_master master_id
           (fun o => match o with Ok x => Ret x | Raised e => Raise e end)) tr res ->
    let murl := str "https://api.discogs.com/masters/" ++ master_id in
    (exists e, tr = [EJson murl (Raised e)] /\ res = Raised e)
    \/ (exists m, tr = [EJson murl (Ok m)] /\ res = Ok None
                  /\ (main_release m = None \/ main_release m = Some 0%Z)
                  /\ (main_release_id m = None \/ main_release_id m = Some 0%Z))
    \/ (exists m rid o,
           tr = [EJson murl (Ok m);
                 EJson (str "https://api.discogs.com/releases/" ++ str_of_int rid) o]
           /\ rid <> 0%Z
           /\ (main_release m = Some rid
               \/ ((main_release m = None \/ main_release m = Some 0%Z)
                   /\ main_release_id m = Some rid))
           /\ res = match o with Ok d => Ok (Some d) | Raised e => Raised e end).
Proof.
  intros master_id tr res H murl. unfold get_master, get_release, get_json in H.
  run_step H. destruct o as [m|e].
  - destruct (main_release_of_cases m) as [[E [H1 H2]]|[rid [E [Hr Hc]]]]; rewrite E in H.
    + run_all H. right. left. now exists m.
    + run_step H. right. right. exists m, rid, o.
      destruct o; run_all H; now repeat split.
  - run_all H. left. now exists e.
Qed.

(** The theorem at work: a master with [main_release] 0 and
    [main_release_id] 55, and a master with neither. *)
Lemma get_master_runs_witness :
  ((exists e, [EJson (str "https://api.discogs.com/masters/7") (Ok (master_doc None None))]
              = [EJson (str "https://api.discogs.com/masters/" ++ str "7") (Raised e)]
              /\ @Ok (option doc) None = Raised e)
   \/ (exists m, [EJson (str "https://api.discogs.com/masters/7") (Ok (master_doc None None))]
                 = [EJson (str "https://api.discogs.com/masters/" ++ str "7") (Ok m)]
                 /\ @Ok (option doc) None = Ok None
                 /\ (main_release m = None \/ main_release m = Some 0%Z)
                 /\ (main_release_id m = None \/ main_release_id m = Some 0%Z))
   \/ (exists m rid o,
          [EJson (str "https://api.discogs.com/masters/7") (Ok (master_doc None None))]
          = [EJson (str "https://api.discogs.com/masters/" ++ str "7") (Ok m);
             EJson (str "https://api.discogs.com/releases/" ++ str_of_int rid) o]
          /\ rid <> 0%Z
          /\ (main_release m = Some rid
              \/ ((main_release m = None \/ main_release m = Some 0%Z)
                  /\ main_release_id m = Some rid))
          /\ @Ok (option doc) None = match o with Ok d => Ok (Some d) | Raised e => Raised e end)).
Proof.
  apply (@get_master_runs (str "7")
           [EJson (str "https://api.discogs.com/masters/7") (Ok (master_doc None None))]
           (@Ok (option doc) None)).
  cbn. auto.
Defined.

Lemma extract_id_cases (t : text) :
  extract_id t = (None, None)
  \/ exists kind c ds,
       extract_id t = (Some kind, Some (c :: ds))
       /\ (kind = str "release" \/ kind = str "master").
Proof.
  unfold extract_id.
  destruct (search true RE_RELEASE t) as [m|] eqn:E1.
  - right. apply search_some in E1 as [a [b [-> Hb]]].
    apply entity_match_inv in Hb as [h [mid [wd [ds [rest [-> [_ [_ [_ [Hd [_ ->]]]]]]]]]]].
    destruct ds as [|c ds]; [discriminate|]. exists (str "release"), c, ds. auto.
  - destruct (search true RE_MASTER t) as [m|] eqn:E2; [|now left].
    right. apply search_some in E2 as [a [b [-> Hb]]].
    apply entity_match_inv in Hb as [h [mid [wd [ds [rest [-> [_ [_ [_ [Hd [_ ->]]]]]]]]]]].
    destruct ds as [|c ds]; [discriminate|]. exists (str "master"), c, ds. auto.
Qed.

(** What [handle] does with the kind and the id of the message. *)
Lemma handle_cases (message_text : option text) :
  let msg := strip (or_text message_text []) in
  (extract_id msg = (None, None) /\ handle message_text = ReplyText HELP finish)
  \/ (exists id, extract_id msg = (Some (str "release"), Some id)
                 /\ handle message_text
                    = get_release id
                        (fun o =>
                           match o with
                           | Ok d => with_data (Ok (Some d)) msg
                           | Raised e => with_data (Raised e) msg
                           end))
  \/ (exists id, extract_id msg = (Some (str "master"), Some id)
                 /\ handle message_text = get_master id (fun o => with_data o msg)).
Proof.
  intros msg. unfold handle. fold msg.
  destruct (extract_id_cases msg) as [E|[kind [c [ds [E [->| ->]]]]]]; rewrite E.
  - now left.
  - right. left. now exists (c :: ds).
  - right. right. now exists (c :: ds).
Qed.

Ltac handle_runs H :=
  unfold get_master, get_release, get_json, with_data, deliver in H;
  cbv beta zeta in H; run_all H.

(** X20. In every run of [handle] at most two documents are asked of
    Discogs and at most one image is fetched.  A run that ends well has
    delivered exactly one reply; a run that ends with an exception has
    delivered none, and a reply has failed in it: the exceptions of the
    fetches do not leave [handle]. *)
Theorem handle_replies_once :
  forall (message_text : option text) (tr : list event) (res : outcome unit),
    run (handle message_text) tr res ->
    length (filter is_json tr) <= 2
    /\ length (filter is_content tr) <= 1
    /\ ((res = Ok tt /\ length (filter delivered tr) = 1)
        \/ (exists e, res = Raised e
                      /\ length (filter delivered tr) = 0
                      /\ existsb reply_failed tr = true)).
Proof.
  intros message_text tr res H.
  destruct (handle_cases message_text) as [[_ E]|[[id [_ E]]|[id [_ E]]]];
    rewrite E in H; clear E; handle_runs H; cbn;
    (split; [lia|]); (split; [lia|]);
    solve [left; auto | right; eexists; auto].
Qed.

(** The theorem at work on a run in which the release is fetched, has no
    image, and the caption is delivered. *)
Lemma handle_replies_once_witness :
  length (filter is_json
            [EJson (str "https://api.discogs.com/releases/1") (Ok (release_doc soul_data None));
             EText (build_caption soul_data (str "discogs.com/release/1")) (Ok tt)]) <= 2
  /\ length (filter is_content
               [EJson (str "https://api.discogs.com/releases/1") (Ok (release_doc soul_data None));
                EText (build_caption soul_data (str "discogs.com/release/1")) (Ok tt)]) <= 1
  /\ ((Ok tt = Ok tt
       /\ length (filter delivered
                    [EJson (str "https://api.discogs.com/releases/1")
                       (Ok (release_doc soul_data None));
                     EText (build_caption soul_data (str "discogs.com/release/1")) (Ok tt)]) = 1)
      \/ (exists e, Ok tt = Raised e
                    /\ length (filter delivered
                                 [EJson (str "https://api.discogs.com/releases/1")
                                    (Ok (release_doc soul_data None));
                                  EText (build_caption soul_data (str "discogs.com/release/1"))
                                    (Ok tt)]) = 0
                    /\ existsb reply_failed
                         [EJson (str "https://api.discogs.com/releases/1")
                            (Ok (release_doc soul_data None));
                          EText (build_caption soul_data (str "discogs.com/release/1")) (Ok tt)]
                       = true)).
Proof.
  apply (@handle_replies_once (Some (str " discogs.com/release/1 "))).
  vm_compute. auto.
Defined.

(** X21. A message in which URL Identifier finds no id, and so a message
    without text, is answered with the help text and nothing else: nothing
    is asked of Discogs. *)
Theorem handle_no_id :
  forall (message_text : option text) (tr : list event) (res : outcome unit),
    (message_text = None
     \/ extract_id (strip (or_text message_text [])) = (None, None)) ->
    run (handle message_text) tr res ->
    exists o, tr = [EText HELP o]
              /\ res = match o with Ok _ => Ok tt | Raised e => Raised e end.
Proof.
  intros message_text tr res Hm H.
  assert (E : extract_id (strip (or_text message_text [])) = (None, None)).
  { destruct Hm as [->|Hm]; [reflexivity | exact Hm]. }
  unfold handle in H. rewrite E in H. run_step H.
  exists o. destruct o as [[]|e]; run_all H; now split.
Qed.

(** The theorem at work on a message that is no URL. *)
Lemma handle_no_id_witness :
  exists o, [EText HELP (Ok tt)] = [EText HELP o]
            /\ Ok tt = match o with Ok _ => Ok tt | Raised e => Raised e end.
Proof.
  apply (@handle_no_id (Some (str "hello")) [EText HELP (Ok tt)] (Ok tt)).
  - right. reflexivity.
  - vm_compute. auto.
Defined.

(** X22. With an id, [handle] first asks Discogs for the release of that id,
    or for the master of that id; a second document is asked for only after
    a master that names a main release, and it is that release. *)
Theorem handle_requests :
  forall (message_text : option text) (kind id : text) (tr : list event)
         (res : outcome unit),
    extract_id (strip (or_text message_text [])) = (Some kind, Some id) ->
    run (handle message_text) tr res ->
    exists o tr',
      tr = EJson (str "https://api.discogs.com/"
                    ++ (if text_eqb kind (str "release")
                        then str "releases/" else str "masters/") ++ id) o :: tr'
      /\ (forall url o', In (EJson url o') tr' ->
            kind = str "master"
            /\ exists m rid,
                 o = Ok m /\ main_release_of m = Some rid
                 /\ url = str "https://api.discogs.com/releases/" ++ str_of_int rid).
Proof.
  intros message_text kind id tr res E H.
  destruct (handle_cases message_text) as [[E' _]|[[id' [E' Eh]]|[id' [E' Eh]]]];
    rewrite E in E'; try discriminate; injection E' as -> ->;
    rewrite Eh in H; clear Eh; handle_runs H;
    eexists; eexists; (split; [reflexivity|]);
    intros url o' Hin; cbn [In] in Hin;
    repeat (destruct Hin as [Hin|Hin]; [try discriminate Hin|]); try contradiction.
  all: injection Hin as <- <-; split; [reflexivity|]; eauto.
Qed.

(** The theorem at work on a master URL whose master names release 55. *)
Lemma handle_requests_witness :
  exists o tr',
    [EJson (str "https://api.discogs.com/masters/7") (Ok (master_doc (Some 0%Z) (Some 55%Z)));
     EJson (str "https://api.discogs.com/releases/55") (Raised (str "404"));
     EText (str "Discogs error: 404") (Ok tt)]
    = EJson (str "https://api.discogs.com/"
               ++ (if text_eqb (str "master") (str "release")
                   then str "releases/" else str "masters/") ++ str "7") o :: tr'
    /\ (forall url o', In (EJson url o') tr' ->
          str "master" = str "master"
          /\ exists m rid,
               o = Ok m /\ main_release_of m = Some rid
               /\ url = str "https://api.discogs.com/releases/" ++ str_of_int rid).
Proof.
  apply (@handle_requests (Some (str "discogs.com/master/7")) (str "master") (str "7")
           _ (Ok tt)).
  - reflexivity.
  - vm_compute. auto.
Defined.

Ltac pick_In :=
  cbn [In]; solve [repeat (first [left; reflexivity | right])].

Ltac reply_case :=
  let ev := fresh "ev" in let t := fresh "t" in
  let Hin := fresh "Hin" in let Ht := fresh "Ht" in
  intros ev t Hin Ht; cbn [In] in Hin;
  repeat (destruct Hin as [Hin|Hin];
          [subst ev; cbn [reply_text_of] in Ht; try discriminate Ht|]);
  try contradiction; injection Ht as Ht; subst t;
  first [ left; reflexivity
        | right; left; reflexivity
        | right; right; left; eexists; split; [reflexivity|];
          first [left; eexists; pick_In | right; pick_In]
        | right; right; right; do 2 eexists;
          (split; [|split; [eassumption | reflexivity]]); pick_In ].

Ltac photo_case :=
  let photo := fresh "photo" in let caption := fresh "caption" in
  let o := fresh "o" in let Hin := fresh "Hin" in
  intros photo caption o Hin; cbn [In] in Hin;
  repeat (destruct Hin as [Hin|Hin]; [try discriminate Hin|]);
  try contradiction;
  injection Hin as Hp Hc Ho; subst photo caption o; do 3 eexists;
  (split; [|split; [eassumption | split; [|reflexivity]]]); pick_In.

(** X23. What [handle] replies is the help text, the text for no data, the
    text of an error with the exception of a failed request (or of the
    failed reply for no data), or the caption of a document Discogs has
    sent, composed with the trimmed message.  A photo goes out only with the
    bytes fetched from the first image of that document, under its
    caption. *)
Theorem handle_reply_texts :
  forall (message_text : option text) (tr : list event) (res : outcome unit),
    run (handle message_text) tr res ->
    let msg := strip (or_text message_text []) in
    (forall ev t, In ev tr -> reply_text_of ev = Some t ->
        t = HELP \/ t = NO_DATA
        \/ (exists e, t = ERROR ++ e
                      /\ ((exists url, In (EJson url (Raised e)) tr)
                          \/ In (EText NO_DATA (Raised e)) tr))
        \/ (exists url d, In (EJson url (Ok d)) tr /\ doc_empty d = false
                          /\ t = build_caption (release d) msg))
    /\ (forall photo caption o, In (EPhoto photo caption o) tr ->
          exists url d img_url,
            In (EJson url (Ok d)) tr /\ image_url d = Some img_url
            /\ In (EContent img_url (Ok photo)) tr
            /\ caption = build_caption (release d) msg).
Proof.
  intros message_text tr res H msg. subst msg.
  destruct (handle_cases message_text) as [[_ E]|[[id [_ E]]|[id [_ E]]]];
    rewrite E in H; clear E; handle_runs H;
    (split; [reply_case | photo_case]).
Qed.

(** The theorem at work: the reply of a run with a release without image. *)
Lemma handle_reply_texts_witness :
  exists url d img_url,
    In (EJson url (Ok d))
      [EJson (str "https://api.discogs.com/releases/1")
         (Ok (release_doc soul_data (Some [Image (Some (str "http://i/1.jpg"))])));
       EContent (str "http://i/1.jpg") (Ok (str "JPEG"));
       EPhoto (str "JPEG") (build_caption soul_data (str "discogs.com/release/1")) (Ok tt)]
    /\ image_url d = Some img_url
    /\ In (EContent img_url (Ok (str "JPEG")))
         [EJson (str "https://api.discogs.com/releases/1")
            (Ok (release_doc soul_data (Some [Image (Some (str "http://i/1.jpg"))])));
          EContent (str "http://i/1.jpg") (Ok (str "JPEG"));
          EPhoto (str "JPEG") (build_caption soul_data (str "discogs.com/release/1")) (Ok tt)]
    /\ build_caption soul_data (str "discogs.com/release/1")
       = build_caption (release d)
           (strip (or_text (Some (str "discogs.com/release/1")) [])).
Proof.
  assert (R : run (handle (Some (str "discogs.com/release/1")))
                [EJson (str "https://api.discogs.com/releases/1")
                   (Ok (release_doc soul_data (Some [Image (Some (str "http://i/1.jpg"))])));
                 EContent (str "http://i/1.jpg") (Ok (str "JPEG"));
                 EPhoto (str "JPEG") (build_caption soul_data (str "discogs.com/release/1"))
                   (Ok tt)]
                (Ok tt))
    by (vm_compute; repeat split).
  apply (proj2 (@handle_reply_texts _ _ _ R)
           (str "JPEG") (build_caption soul_data (str "discogs.com/release/1")) (Ok tt)).
  cbn [In]. right. right. left. reflexivity.
Defined.

(** X24. When the image cannot be fetched or the photo cannot be sent, the
    caption goes out as a text: it is the last call of the run. *)
Theorem handle_photo_fallback :
  forall (message_text : option text) (tr : list event) (res : outcome unit),
    run (handle message_text) tr res ->
    ((exists url e, In (EContent url (Raised e)) tr)
     \/ (exists photo caption e, In (EPhoto photo caption (Raised e)) tr)) ->
    exists url d o,
      In (EJson url (Ok d)) tr
      /\ last tr (EText [] (Ok tt))
         = EText (build_caption (release d) (strip (or_text message_text []))) o.
Proof.
  intros message_text tr res H Hf.
  destruct (handle_cases message_text) as [[_ E]|[[id [_ E]]|[id [_ E]]]];
    rewrite E in H; clear E; handle_runs H;
    destruct Hf as [[u [e' Hin]]|[ph [cp [e' Hin]]]]; cbn [In] in Hin;
    repeat (destruct Hin as [Hin|Hin]; [try discriminate Hin|]); try contradiction;
    do 3 eexists; (split; [|reflexivity]); pick_In.
Qed.

(** The theorem at work on a run in which the photo is refused. *)
Lemma handle_photo_fallback_witness :
  exists url d o,
    In (EJson url (Ok d))
      [EJson (str "https://api.discogs.com/releases/1")
         (Ok (release_doc soul_data (Some [Image (Some (str "http://i/1.jpg"))])));
       EContent (str "http://i/1.jpg") (Ok (str "JPEG"));
       EPhoto (str "JPEG") (build_caption soul_data (str "discogs.com/release/1"))
         (Raised (str "too long"));
       EText (build_caption soul_data (str "discogs.com/release/1")) (Ok tt)]
    /\ last
         [EJson (str "https://api.discogs.com/releases/1")
            (Ok (release_doc soul_data (Some [Image (Some (str "http://i/1.jpg"))])));
          EContent (str "http://i/1.jpg") (Ok (str "JPEG"));
          EPhoto (str "JPEG") (build_caption soul_data (str "discogs.com/release/1"))
            (Raised (str "too long"));
          EText (build_caption soul_data (str "discogs.com/release/1")) (Ok tt)]
         (EText [] (Ok tt))
       = EText (build_caption (release d)
                  (strip (or_text (Some (str "discogs.com/release/1")) []))) o.
Proof.
  apply (@handle_photo_fallback (Some (str "discogs.com/release/1")) _ (Ok tt)).
  - vm_compute. repeat split.
  - right. do 3 eexists. cbn [In]. right. right. left. reflexivity.
Defined.
